(** * WebNN execution provider: builder helpers

    A shallow embedding of
    [onnxruntime/core/providers/webnn/builders/helper.cc]: the collector of
    initializers visible from a subgraph, the graph-input and node support
    predicates, the partitioning of the topological order into groups of
    supported nodes, the element-type compatibility test, the
    bidirectional broadcast of two shapes, the reading of a static shape
    and the test that all input types are the same.

    Conventions.  [size_t] and [int64_t] values are integers of [Z]; the
    wrap-around of [size_t] subtraction is written out ([size_t_wrap]).
    [std::vector] is [list], [std::unordered_map] with string keys is
    [gmap string].  Log statements are a diagnostic side channel and are
    left out; the calls the partitioner makes to the support predicates are
    recorded, in order, by a small writer monad ([M]). *)

From Stdlib Require Import ZArith Lia.
From stdpp Require Import base tactics option list strings gmap fin_maps.

Local Open Scope string_scope.
Local Open Scope list_scope.
Set Warnings "-register-all".

(** ** Data model

    The graph classes, [emscripten::val] and the operator builders are
    declared in headers outside the source file; each is given here with
    the members the helpers use. *)

(** Modelled from the spec: [ONNX_NAMESPACE::TensorProto] is declared
    outside the source file; an initializer is "a named constant tensor
    embedded in the graph definition".  Only its identity matters to the
    functions below. *)
Record TensorProto := {
  TensorProto_data_type : Z;
  TensorProto_dims : list Z;
  TensorProto_raw_data : list Z
}.

(** [InitializedTensorSet]: [std::unordered_map<std::string, const TensorProto*>]. *)
Abbreviation InitializedTensorSet := (gmap string TensorProto).

(** One entry of a [TensorShapeProto]: a concrete value, a symbolic
    parameter, or nothing set. *)
Inductive Dimension :=
| dim_of_value (v : Z)
| dim_of_param (p : string)
| dim_not_set.

Definition has_dim_value (dim : Dimension) : bool :=
  match dim with
  | dim_of_value _ => true
  | _ => false
  end.

(** [NodeArg]: a tensor edge, with the two accessors the helpers use;
    [NodeArg_Shape] is [None] for a null [shape_proto]. *)
Record NodeArg := {
  NodeArg_Name : string;
  NodeArg_Shape : option (list Dimension)
}.

Definition NodeIndex := N.

Record Node := {
  Node_Index : NodeIndex;
  Node_OpType : string;
  Node_Name : string;
  Node_InputDefs : list NodeArg;
  Node_OutputDefs : list NodeArg
}.

(** Modelled from the spec: class [Graph] is declared outside the source
    file.  "Graphs may be nested (a subgraph has a parent graph
    reference)"; the interface gives, for a graph, "whether it is a
    subgraph, its parent graph (if any), its own initializer mapping".
    A graph is a subgraph exactly when it has a parent. *)
Inductive Graph := Build_Graph {
  Graph_ParentGraph : option Graph;
  Graph_GetAllInitializedTensors : InitializedTensorSet
}.

Definition Graph_IsSubgraph (graph : Graph) : bool :=
  match Graph_ParentGraph graph with
  | Some _ => true
  | None => false
  end.

(** Modelled from the spec: class [GraphViewer] is declared outside the
    source file.  It is a read-only view of one graph: it enumerates the
    graph's declared inputs and its nodes in a topological order, and
    answers [IsSubgraph] and [GetAllInitializedTensors] for the graph it
    views.  [GraphViewer_GetNode] is only asked for the indices of
    [GraphViewer_GetNodesInTopologicalOrder], which are nodes of the graph;
    the source dereferences the result without a test. *)
Record GraphViewer := {
  GraphViewer_GetGraph : Graph;
  GraphViewer_GetInputs : list NodeArg;
  GraphViewer_GetNodesInTopologicalOrder : list NodeIndex;
  GraphViewer_GetNode : NodeIndex → Node
}.

Definition GraphViewer_IsSubgraph (graph_viewer : GraphViewer) : bool :=
  Graph_IsSubgraph (GraphViewer_GetGraph graph_viewer).

Definition GraphViewer_GetAllInitializedTensors (graph_viewer : GraphViewer)
  : InitializedTensorSet :=
  Graph_GetAllInitializedTensors (GraphViewer_GetGraph graph_viewer).

Inductive WebnnDeviceType := CPU | GPU | NPU.

(** [emscripten::val]: a JavaScript value. *)
Inductive emscripten_val :=
| val_undefined
| val_bool (b : bool)
| val_number (n : Z)
| val_string (s : string)
| val_array (items : list emscripten_val)
| val_object (props : list (string * emscripten_val)).

(** The interface of an operator builder, as far as the helpers use it. *)
Record OpBuilder := {
  IsOpSupported :
    InitializedTensorSet → Node → WebnnDeviceType → emscripten_val → bool
}.

(** ** InitializerCollector *)

(** [std::unordered_map::insert] of one element: an element whose key is
    already present is not inserted. *)
Definition unordered_map_insert (name : string) (tensor : TensorProto)
    (all_initializers : InitializedTensorSet) : InitializedTensorSet :=
  match all_initializers !! name with
  | Some _ => all_initializers
  | None => <[name := tensor]> all_initializers
  end.

(** [all_initializers.insert(current.begin(), current.end())]. *)
Definition insert_range (all_initializers current_initializers : InitializedTensorSet)
  : InitializedTensorSet :=
  map_fold unordered_map_insert all_initializers current_initializers.

(** The [while] loop of [CollectAllInitializedTensors] together with the
    insertion of the top-level graph that follows it. *)
Fixpoint collect_upwards (cur_graph : Graph) (all_initializers : InitializedTensorSet)
  : InitializedTensorSet :=
  match Graph_ParentGraph cur_graph with
  | Some parent_graph =>
      collect_upwards parent_graph
        (insert_range all_initializers (Graph_GetAllInitializedTensors cur_graph))
  | None =>
      insert_range all_initializers (Graph_GetAllInitializedTensors cur_graph)
  end.

Definition CollectAllInitializedTensors (graph_viewer : GraphViewer)
  : InitializedTensorSet :=
  let all_initializers : InitializedTensorSet := ∅ in
  if GraphViewer_IsSubgraph graph_viewer
  then collect_upwards (GraphViewer_GetGraph graph_viewer) all_initializers
  else all_initializers.

(** The graph itself followed by its ancestors, innermost first, up to and
    including the top-level graph. *)
Fixpoint scope_chain (graph : Graph) : list Graph :=
  graph :: match Graph_ParentGraph graph with
           | Some parent_graph => scope_chain parent_graph
           | None => []
           end.

(** The binding of [name] in the first scope of the list that has one. *)
Fixpoint first_binding (name : string) (scopes : list InitializedTensorSet)
  : option TensorProto :=
  match scopes with
  | [] => None
  | scope :: outer =>
      match scope !! name with
      | Some tensor => Some tensor
      | None => first_binding name outer
      end
  end.

(** ** Support predicates *)

Definition IsInputSupported (input : NodeArg) (parent_name : string) : bool :=
  let input_name := NodeArg_Name input in
  let shape_proto := NodeArg_Shape input in
  (* Optional tensors can be indicated by an empty name, just ignore it. *)
  if bool_decide (input_name = "") then true
  else
    match shape_proto with
    | None => false                       (* no shape *)
    | Some dims => forallb has_dim_value dims   (* no dynamic dimension *)
    end.

(** The calls the partitioner makes, in the order it makes them. *)
Inductive Call :=
| Call_IsInputSupported (input : NodeArg)
| Call_CheckSingleOp (op_type : string)
| Call_IsNodeSupported (node : Node).

(** A computation that returns [value] after making [calls]. *)
Record M (A : Type) := Build_M { value : A; calls : list Call }.
Arguments Build_M {A} _ _.
Arguments value {A} _.
Arguments calls {A} _.

#[global] Instance M_ret : MRet M := λ A a, Build_M a [].
#[global] Instance M_bind : MBind M := λ A B f m,
  Build_M (value (f (value m))) (calls m ++ calls (f (value m))).

(** Record the call [c], whose answer is [a]. *)
Definition called {A} (c : Call) (a : A) : M A := Build_M a [c].

Section Partitioner.
(** [CheckSingleOp] and the table of operator builders are declared
    outside the source file; they are parameters here. *)
Variable CheckSingleOp : string → emscripten_val → WebnnDeviceType → bool.
Variable GetOpBuilders : gmap string OpBuilder.

Definition IsNodeSupported (node : Node) (graph_viewer : GraphViewer)
    (device_type : WebnnDeviceType) (wnn_limits : emscripten_val) : bool :=
  let op_builders := GetOpBuilders in
  match op_builders !! Node_OpType node with
  | Some op_builder =>
      IsOpSupported op_builder (GraphViewer_GetAllInitializedTensors graph_viewer)
        node device_type wnn_limits
  | None => false
  end.

Variable graph_viewer : GraphViewer.
Variable wnn_builder : emscripten_val.
Variable device_type : WebnnDeviceType.
Variable wnn_limits : emscripten_val.

(** The loop over [graph_viewer.GetInputs()]: [false] as soon as one
    input is not supported. *)
Fixpoint inputs_supported (inputs : list NodeArg) : M bool :=
  match inputs with
  | [] => mret true
  | input :: rest =>
      ok ← called (Call_IsInputSupported input) (IsInputSupported input "graph");
      if ok : bool then inputs_supported rest else mret false
  end.

(** [supported] for one node: the platform check first, the builder's
    check only when it passed. *)
Definition node_supported (node : Node) : M bool :=
  platform ← called (Call_CheckSingleOp (Node_OpType node))
               (CheckSingleOp (Node_OpType node) wnn_builder device_type);
  if platform : bool
  then called (Call_IsNodeSupported node)
         (IsNodeSupported node graph_viewer device_type wnn_limits)
  else mret false.

(** The loop over the topological order, on the two accumulators. *)
Fixpoint scan_nodes (node_indices : list NodeIndex)
    (supported_node_groups : list (list NodeIndex))
    (supported_node_group : list NodeIndex)
  : M (list (list NodeIndex) * list NodeIndex) :=
  match node_indices with
  | [] => mret (supported_node_groups, supported_node_group)
  | node_idx :: rest =>
      let node := GraphViewer_GetNode graph_viewer node_idx in
      supported ← node_supported node;
      if supported : bool then
        scan_nodes rest supported_node_groups (supported_node_group ++ [node_idx])
      else if bool_decide (supported_node_group ≠ []) then
        scan_nodes rest (supported_node_groups ++ [supported_node_group]) []
      else
        scan_nodes rest supported_node_groups supported_node_group
  end.

Definition GetSupportedNodes : M (list (list NodeIndex)) :=
  let supported_node_groups : list (list NodeIndex) := [] in
  ok ← inputs_supported (GraphViewer_GetInputs graph_viewer);
  if ok : bool then
    let supported_node_group : list NodeIndex := [] in
    let node_indices := GraphViewer_GetNodesInTopologicalOrder graph_viewer in
    st ← scan_nodes node_indices supported_node_groups supported_node_group;
    let '(supported_node_groups, supported_node_group) := st in
    if bool_decide (supported_node_group ≠ [])
    then mret (supported_node_groups ++ [supported_node_group])
    else mret supported_node_groups
  else mret supported_node_groups.

(** A node index is supported when the platform check and the builder's
    check both hold for its node. *)
Definition is_supported (node_idx : NodeIndex) : bool :=
  let node := GraphViewer_GetNode graph_viewer node_idx in
  CheckSingleOp (Node_OpType node) wnn_builder device_type
  && IsNodeSupported node graph_viewer device_type wnn_limits.
End Partitioner.

(** Put a group in front of the finished groups, unless it is empty. *)
Definition close_group (group : list NodeIndex) (groups : list (list NodeIndex))
  : list (list NodeIndex) :=
  if bool_decide (group ≠ []) then group :: groups else groups.

(** The flush after the scan, on the state the scan ends in. *)
Definition finish_scan (st : list (list NodeIndex) * list NodeIndex)
  : list (list NodeIndex) :=
  if bool_decide (st.2 ≠ []) then st.1 ++ [st.2] else st.1.

(** ** ElementTypeCompat *)

(** The values of [ONNX_NAMESPACE::TensorProto_DataType] that the helpers
    name (the ONNX enumeration). *)
Definition TensorProto_DataType_FLOAT : Z := 1.
Definition TensorProto_DataType_UINT8 : Z := 2.
Definition TensorProto_DataType_INT8 : Z := 3.
Definition TensorProto_DataType_INT32 : Z := 6.
Definition TensorProto_DataType_INT64 : Z := 7.
Definition TensorProto_DataType_BOOL : Z := 9.
Definition TensorProto_DataType_FLOAT16 : Z := 10.
Definition TensorProto_DataType_UINT32 : Z := 12.
Definition TensorProto_DataType_UINT64 : Z := 13.

(** [Array.prototype.includes] on an array of type tags. *)
Fixpoint includes (array : list string) (search_element : string) : bool :=
  match array with
  | [] => false
  | element :: rest =>
      if bool_decide (element = search_element) then true
      else includes rest search_element
  end.

Section ElementTypeCompat.
(** The table [onnx_to_webnn_data_type_map] is declared outside the
    source file; it is a parameter here. *)
Variable onnx_to_webnn_data_type_map : gmap Z string.

(** [webnn_supported_data_types] is the backend's array of accepted type
    tags for one operand. *)
Definition IsSupportedDataType (onnx_data_type : Z)
    (webnn_supported_data_types : list string) : bool :=
  match onnx_to_webnn_data_type_map !! onnx_data_type with
  | None => false
  | Some webnn_data_type =>
      (* Check if WebNN supports the data type. *)
      includes webnn_supported_data_types webnn_data_type
  end.
End ElementTypeCompat.

(** [desc] is the descriptor object, as the map of its properties; the
    result is the descriptor after the call and the returned flag. *)
Definition SetWebnnDataType (desc : gmap string emscripten_val) (data_type : Z)
  : gmap string emscripten_val * bool :=
  if bool_decide (data_type = TensorProto_DataType_BOOL)
     || bool_decide (data_type = TensorProto_DataType_UINT8)
  then (<["dataType" := val_string "uint8"]> desc, true)
  else if bool_decide (data_type = TensorProto_DataType_INT8)
  then (<["dataType" := val_string "int8"]> desc, true)
  else if bool_decide (data_type = TensorProto_DataType_FLOAT16)
  then (<["dataType" := val_string "float16"]> desc, true)
  else if bool_decide (data_type = TensorProto_DataType_FLOAT)
  then (<["dataType" := val_string "float32"]> desc, true)
  else if bool_decide (data_type = TensorProto_DataType_INT32)
  then (<["dataType" := val_string "int32"]> desc, true)
  else if bool_decide (data_type = TensorProto_DataType_INT64)
  then (<["dataType" := val_string "int64"]> desc, true)
  else if bool_decide (data_type = TensorProto_DataType_UINT32)
  then (<["dataType" := val_string "uint32"]> desc, true)
  else if bool_decide (data_type = TensorProto_DataType_UINT64)
  then (<["dataType" := val_string "uint64"]> desc, true)
  else (desc, false).

(** The type tag a descriptor carries, if it carries one. *)
Definition desc_dataType (desc : gmap string emscripten_val) : option string :=
  match desc !! "dataType" with
  | Some (val_string tag) => Some tag
  | _ => None
  end.

(** ** ShapeOps *)

(** Arithmetic on [size_t] is modulo [2^64]. *)
Definition size_t_wrap (z : Z) : Z := (z mod 2 ^ 64)%Z.

Definition vector_size (v : list Z) : Z := Z.of_nat (length v).

(** [v[i]]; [None] outside the vector. *)
Definition vector_at (v : list Z) (i : Z) : option Z :=
  if bool_decide (0 ≤ i)%Z then v !! Z.to_nat i else None.

(** [v[i] = x]; [None] outside the vector. *)
Definition vector_store (v : list Z) (i : Z) (x : Z) : option (list Z) :=
  if bool_decide (0 ≤ i < vector_size v)%Z
  then Some (<[Z.to_nat i := x]> v)
  else None.

(** The [for] loop of [GetBidirectionalBroadcastShape], with [remaining]
    iterations to go from index [i].  The result is the returned flag and
    [output_shape] as the loop leaves it. *)
Fixpoint broadcast_loop (shape_a shape_b : list Z) (remaining : nat) (i : Z)
    (output_shape : list Z) : option (bool * list Z) :=
  match remaining with
  | O => Some (true, output_shape)
  | S remaining' =>
      let size_a := vector_size shape_a in
      let size_b := vector_size shape_b in
      let smaller_size := Z.min size_a size_b in
      let larger_size := Z.max size_a size_b in
      (* right alignment *)
      let axis_a := size_t_wrap (size_a - i - 1) in
      let axis_b := size_t_wrap (size_b - i - 1) in
      if bool_decide (i < smaller_size)%Z then
        a ← vector_at shape_a axis_a;
        b ← vector_at shape_b axis_b;
        if bool_decide (a ≠ b) && bool_decide (a ≠ 1%Z) && bool_decide (b ≠ 1%Z)
        then Some (false, output_shape)
        else
          output_shape' ←
            vector_store output_shape (size_t_wrap (larger_size - i - 1)) (Z.max a b);
          broadcast_loop shape_a shape_b remaining' (i + 1)%Z output_shape'
      else
        dim ← (if bool_decide (size_a > size_b)%Z
               then vector_at shape_a axis_a
               else vector_at shape_b axis_b);
        output_shape' ←
          vector_store output_shape (size_t_wrap (larger_size - i - 1)) dim;
        broadcast_loop shape_a shape_b remaining' (i + 1)%Z output_shape'
  end.

(** The three vectors are distinct objects; the result is the returned
    flag and [output_shape] after the call.  [None] stands for an access
    outside a vector; there is none, see [broadcast_loop_spec]. *)
Definition GetBidirectionalBroadcastShape (shape_a shape_b output_shape : list Z)
  : option (bool * list Z) :=
  let size_a := vector_size shape_a in
  let size_b := vector_size shape_b in
  let larger_size := Z.max size_a size_b in
  let output_shape := resize (Z.to_nat larger_size) 0%Z output_shape in
  broadcast_loop shape_a shape_b (Z.to_nat larger_size) 0%Z output_shape.

(** The dimension of [shape] at offset [i] from its end, when the shape
    reaches that far (right alignment). *)
Definition dim_from_end (shape : list Z) (i : nat) : option Z :=
  reverse shape !! i.

(** Two dimensions are broadcast-compatible. *)
Definition dims_compatible (a b : Z) : Prop := a = b ∨ a = 1%Z ∨ b = 1%Z.

(** The output dimension at offset [i] from the end. *)
Definition broadcast_dim_at (shape_a shape_b : list Z) (i : nat) : option Z :=
  match dim_from_end shape_a i, dim_from_end shape_b i with
  | Some a, Some b => Some (Z.max a b)
  | Some a, None => Some a
  | None, Some b => Some b
  | None, None => None
  end.

(** Where both shapes have a dimension at offset [i], the two are compatible. *)
Definition compatible_at (shape_a shape_b : list Z) (i : nat) : Prop :=
  ∀ a b, dim_from_end shape_a i = Some a → dim_from_end shape_b i = Some b →
         dims_compatible a b.

(** ** Further helpers of the file *)

(** [dim.dim_value()]: the value of the dimension, or the default 0 when
    the dimension holds no value. *)
Definition dim_value (dim : Dimension) : Z :=
  match dim with
  | dim_of_value v => v
  | _ => 0%Z
  end.

(** [GetShape]: the returned flag and [shape] after the call; every
    dimension is pushed to the back of [shape]. *)
Definition GetShape (node_arg : NodeArg) (shape : list Z) : bool * list Z :=
  let shape_proto := NodeArg_Shape node_arg in
  match shape_proto with
  | None => (false, shape)                       (* no shape info *)
  | Some dims =>
      (* We already checked the shape has no dynamic dimension. *)
      (true, foldl (λ shape dim, shape ++ [dim_value dim]) shape dims)
  end.

(** The [for] loop of [AreInputDataTypesSame], with [remaining] iterations
    to go from index [i]; [None] stands for an access outside the span. *)
Fixpoint input_types_loop (input_types : list Z) (remaining : nat) (i : Z)
  : option bool :=
  match remaining with
  | O => Some true
  | S remaining' =>
      first ← vector_at input_types 0%Z;
      other ← vector_at input_types i;
      if bool_decide (first ≠ other) then Some false
      else input_types_loop input_types remaining' (i + 1)%Z
  end.

(** [op_type] is only logged.  The loop starts at index 1 and runs while
    [i < input_types.size()]. *)
Definition AreInputDataTypesSame (op_type : string) (input_types : list Z)
  : option bool :=
  input_types_loop input_types (Z.to_nat (vector_size input_types - 1)) 1%Z.

(** The same view with another list of nodes to scan. *)
Definition GraphViewer_with_nodes (graph_viewer : GraphViewer)
    (node_indices : list NodeIndex) : GraphViewer :=
  {| GraphViewer_GetGraph := GraphViewer_GetGraph graph_viewer;
     GraphViewer_GetInputs := GraphViewer_GetInputs graph_viewer;
     GraphViewer_GetNodesInTopologicalOrder := node_indices;
     GraphViewer_GetNode := GraphViewer_GetNode graph_viewer |}.

(** The calls [GetSupportedNodes] makes for one node. *)
Definition node_calls (CheckSingleOp : string → emscripten_val → WebnnDeviceType → bool)
    (graph_viewer : GraphViewer) (wnn_builder : emscripten_val)
    (device_type : WebnnDeviceType) (node_idx : NodeIndex) : list Call :=
  let node := GraphViewer_GetNode graph_viewer node_idx in
  Call_CheckSingleOp (Node_OpType node)
  :: if CheckSingleOp (Node_OpType node) wnn_builder device_type
     then [Call_IsNodeSupported node] else [].

(** ** Sample graphs

    A top-level graph that declares the constants ["shape"] and ["w"], and
    a subgraph of it that declares its own ["w"]. *)

Definition outer_shape : TensorProto :=
  {| TensorProto_data_type := TensorProto_DataType_INT64;
     TensorProto_dims := [2%Z];
     TensorProto_raw_data := [1%Z; 6%Z] |}.

Definition outer_w : TensorProto :=
  {| TensorProto_data_type := TensorProto_DataType_FLOAT;
     TensorProto_dims := [1%Z];
     TensorProto_raw_data := [7%Z] |}.

Definition inner_w : TensorProto :=
  {| TensorProto_data_type := TensorProto_DataType_FLOAT;
     TensorProto_dims := [1%Z];
     TensorProto_raw_data := [8%Z] |}.

Definition top_graph : Graph :=
  Build_Graph None (<["shape" := outer_shape]> (<["w" := outer_w]> ∅)).

Definition sub_graph : Graph :=
  Build_Graph (Some top_graph) (<["w" := inner_w]> ∅).

(** A second subgraph with the same own constants under another parent. *)
Definition orphan_graph : Graph :=
  Build_Graph (Some (Build_Graph None ∅)) (<["w" := inner_w]> ∅).

Definition static_input : NodeArg :=
  {| NodeArg_Name := "x";
     NodeArg_Shape := Some [dim_of_value 1; dim_of_value 6] |}.

Definition shapeless_input : NodeArg :=
  {| NodeArg_Name := "y"; NodeArg_Shape := None |}.

Definition dynamic_input : NodeArg :=
  {| NodeArg_Name := "z";
     NodeArg_Shape := Some [dim_of_param "batch"; dim_of_value 6] |}.

Definition shape_operand : NodeArg :=
  {| NodeArg_Name := "shape"; NodeArg_Shape := Some [dim_of_value 2] |}.

(** Nodes 0, 1 and 3 are [Reshape] nodes, node 2 is a [Loop]. *)
Definition sample_node (node_idx : NodeIndex) : Node :=
  {| Node_Index := node_idx;
     Node_OpType := if bool_decide (node_idx = 2%N) then "Loop" else "Reshape";
     Node_Name := "node";
     Node_InputDefs := [static_input; shape_operand];
     Node_OutputDefs := [] |}.

Definition sample_viewer (graph : Graph) (inputs : list NodeArg)
    (node_indices : list NodeIndex) : GraphViewer :=
  {| GraphViewer_GetGraph := graph;
     GraphViewer_GetInputs := inputs;
     GraphViewer_GetNodesInTopologicalOrder := node_indices;
     GraphViewer_GetNode := sample_node |}.

(** The platform implements [Reshape] only. *)
Definition sample_CheckSingleOp (op_type : string) (wnn_builder : emscripten_val)
    (device_type : WebnnDeviceType) : bool :=
  bool_decide (op_type = "Reshape").

(** A builder that accepts every node. *)
Definition lenient_builder : OpBuilder :=
  {| IsOpSupported := λ _ _ _ _, true |}.

(** A builder that requires the second operand to be a constant. *)
Definition constant_operand_builder : OpBuilder :=
  {| IsOpSupported := λ initializers node _ _,
       match Node_InputDefs node !! 1%nat with
       | Some operand => bool_decide (is_Some (initializers !! NodeArg_Name operand))
       | None => false
       end |}.

(** A table that maps the boolean and the unsigned 8-bit type. *)
Definition sample_data_type_map : gmap Z string :=
  <[TensorProto_DataType_BOOL := "uint8"]>
    (<[TensorProto_DataType_UINT8 := "uint8"]>
       (<[TensorProto_DataType_FLOAT := "float32"]> ∅)).

(** The graph of the examples below: one eligible input, nodes 0 to 3. *)
Definition sample_builders : gmap string OpBuilder :=
  {[ "Reshape" := lenient_builder ]}.

Definition sample_partition_viewer : GraphViewer :=
  sample_viewer top_graph [static_input] [0%N; 1%N; 2%N; 3%N].

(** * Properties *)

(** ** InitializerCollector *)

Lemma insert_range_union (all_initializers current : InitializedTensorSet) :
  insert_range all_initializers current = all_initializers ∪ current.
Proof.
  unfold insert_range.
  apply (map_fold_weak_ind (λ r m, r = all_initializers ∪ m)).
  - by rewrite (right_id_L ∅ (∪)).
  - intros name tensor m r Hfresh ->.
    unfold unordered_map_insert.
    rewrite lookup_union_l by done.
    destruct (all_initializers !! name) as [t|] eqn:Hall.
    + apply map_eq; intros j. rewrite !lookup_union.
      destruct (decide (name = j)) as [<-|Hne].
      * rewrite Hall, Hfresh, lookup_insert_eq. done.
      * by rewrite lookup_insert_ne.
    + by rewrite insert_union_r.
Qed.

(** Induction along the parent links. *)
Lemma Graph_parent_ind (P : Graph → Prop) :
  (∀ initializers, P (Build_Graph None initializers)) →
  (∀ parent initializers, P parent → P (Build_Graph (Some parent) initializers)) →
  ∀ graph, P graph.
Proof.
  intros Htop Hsub. fix IH 1. intros [[parent|] initializers].
  - apply Hsub, IH.
  - apply Htop.
Qed.

Lemma collect_upwards_union graph (all_initializers : InitializedTensorSet) :
  collect_upwards graph all_initializers
  = all_initializers ∪ ⋃ (Graph_GetAllInitializedTensors <$> scope_chain graph).
Proof.
  revert all_initializers.
  induction graph as [inits|parent inits IH] using Graph_parent_ind;
    intros all_initializers; simpl.
  - rewrite insert_range_union. by rewrite (right_id_L ∅ (∪)).
  - rewrite IH, insert_range_union. by rewrite (assoc_L (∪)).
Qed.

Lemma lookup_union_list_first name (scopes : list InitializedTensorSet) :
  (⋃ scopes) !! name = first_binding name scopes.
Proof.
  induction scopes as [|scope outer IH]; simpl.
  - apply lookup_empty.
  - rewrite lookup_union, <- IH.
    by destruct (scope !! name), ((⋃ outer) !! name).
Qed.

(** C6.  For a graph that is not a subgraph, [CollectAllInitializedTensors]
    returns the empty set, whatever the graph declares.  For a subgraph it
    returns the union of the initializer mappings of the graph and of every
    ancestor up to and including the top level, taken innermost first: a
    name is bound to what the innermost scope declaring it binds it to, so
    an outer entry never replaces an inner one. *)
Theorem CollectAllInitializedTensors_scopes (graph_viewer : GraphViewer) :
  (GraphViewer_IsSubgraph graph_viewer = false →
     CollectAllInitializedTensors graph_viewer = ∅)
  ∧ (GraphViewer_IsSubgraph graph_viewer = true →
     let scopes :=
       Graph_GetAllInitializedTensors
         <$> scope_chain (GraphViewer_GetGraph graph_viewer) in
     CollectAllInitializedTensors graph_viewer = ⋃ scopes
     ∧ ∀ name,
         CollectAllInitializedTensors graph_viewer !! name
         = first_binding name scopes).
Proof.
  unfold CollectAllInitializedTensors. split; intros ->; [done|].
  cbv zeta. rewrite collect_upwards_union, (left_id_L ∅ (∪)).
  split; [done|]. intros name. apply lookup_union_list_first.
Qed.

Lemma CollectAllInitializedTensors_scopes_witness :
  CollectAllInitializedTensors (sample_viewer top_graph [] []) = ∅
  ∧ Graph_GetAllInitializedTensors top_graph !! "w" = Some outer_w
  ∧ CollectAllInitializedTensors (sample_viewer sub_graph [] []) !! "w"
    = Some inner_w
  ∧ CollectAllInitializedTensors (sample_viewer sub_graph [] []) !! "shape"
    = Some outer_shape.
Proof.
  split; [|split; [|split]].
  - apply (CollectAllInitializedTensors_scopes (sample_viewer top_graph [] [])).
    reflexivity.
  - reflexivity.
  - destruct (CollectAllInitializedTensors_scopes (sample_viewer sub_graph [] []))
      as [_ Hsub].
    destruct (Hsub eq_refl) as [_ Hlookup]. rewrite Hlookup. reflexivity.
  - destruct (CollectAllInitializedTensors_scopes (sample_viewer sub_graph [] []))
      as [_ Hsub].
    destruct (Hsub eq_refl) as [_ Hlookup]. rewrite Hlookup. reflexivity.
Defined.

(** ** SupportPredicates and the initializers *)

(** C5, as stated, fails: in the subgraph [sub_graph] the constant
    ["shape"] is declared by the parent only.  [IsNodeSupported] hands the
    builder the subgraph's own initializers and the node is rejected; on
    the set [CollectAllInitializedTensors] gathers, the same builder
    accepts it. *)
Lemma IsNodeSupported_not_on_collected_initializers :
  let builders : gmap string OpBuilder := {[ "Reshape" := constant_operand_builder ]} in
  let graph_viewer := sample_viewer sub_graph [] [0%N] in
  IsNodeSupported builders (sample_node 0%N) graph_viewer CPU val_undefined = false
  ∧ IsOpSupported constant_operand_builder
      (CollectAllInitializedTensors graph_viewer) (sample_node 0%N) CPU val_undefined
    = true.
Proof. split; reflexivity. Qed.

(** C5, amended.  [IsNodeSupported] answers [false] for an operator type
    without a builder; otherwise it hands the builder the initializer
    mapping of the viewed graph itself
    ([graph_viewer.GetAllInitializedTensors()]).  Two views whose graphs
    declare the same initializers get the same answer, whatever their
    ancestors declare. *)
Theorem IsNodeSupported_own_initializers
    (builders : gmap string OpBuilder) (node : Node) (graph_viewer : GraphViewer)
    (device_type : WebnnDeviceType) (wnn_limits : emscripten_val) :
  IsNodeSupported builders node graph_viewer device_type wnn_limits
  = match builders !! Node_OpType node with
    | Some op_builder =>
        IsOpSupported op_builder
          (Graph_GetAllInitializedTensors (GraphViewer_GetGraph graph_viewer))
          node device_type wnn_limits
    | None => false
    end
  ∧ ∀ other_viewer,
      Graph_GetAllInitializedTensors (GraphViewer_GetGraph other_viewer)
      = Graph_GetAllInitializedTensors (GraphViewer_GetGraph graph_viewer) →
      IsNodeSupported builders node other_viewer device_type wnn_limits
      = IsNodeSupported builders node graph_viewer device_type wnn_limits.
Proof.
  split; [done|]. intros other_viewer Hsame.
  unfold IsNodeSupported, GraphViewer_GetAllInitializedTensors.
  by rewrite Hsame.
Qed.

Lemma IsNodeSupported_own_initializers_witness :
  IsNodeSupported {[ "Reshape" := constant_operand_builder ]} (sample_node 0%N)
    (sample_viewer orphan_graph [] [0%N]) CPU val_undefined
  = IsNodeSupported {[ "Reshape" := constant_operand_builder ]} (sample_node 0%N)
      (sample_viewer sub_graph [] [0%N]) CPU val_undefined.
Proof.
  apply (IsNodeSupported_own_initializers
           {[ "Reshape" := constant_operand_builder ]} (sample_node 0%N)
           (sample_viewer sub_graph [] [0%N]) CPU val_undefined).
  reflexivity.
Defined.

(** ** ElementTypeCompat *)

Lemma includes_true_iff (array : list string) (x : string) :
  includes array x = true ↔ x ∈ array.
Proof.
  induction array as [|y rest IH]; simpl.
  - split; [done|]. by intros ?%elem_of_nil.
  - rewrite elem_of_cons. case_bool_decide as Hy.
    + split; [|done]. intros _. by left.
    + rewrite IH. split; [by right|]. intros [->|?]; [done|assumption].
Qed.

(** C8.  [IsSupportedDataType] returns [false] exactly when the source type
    has no entry in the mapping table or the tag it maps to is absent from
    the supplied allowed set, and [true] otherwise. *)
Theorem IsSupportedDataType_false_iff
    (onnx_to_webnn_data_type_map : gmap Z string)
    (onnx_data_type : Z) (webnn_supported_data_types : list string) :
  (IsSupportedDataType onnx_to_webnn_data_type_map onnx_data_type
     webnn_supported_data_types = false
   ↔ onnx_to_webnn_data_type_map !! onnx_data_type = None
     ∨ ∃ webnn_data_type,
         onnx_to_webnn_data_type_map !! onnx_data_type = Some webnn_data_type
         ∧ webnn_data_type ∉ webnn_supported_data_types)
  ∧ (IsSupportedDataType onnx_to_webnn_data_type_map onnx_data_type
       webnn_supported_data_types = true
     ↔ ∃ webnn_data_type,
         onnx_to_webnn_data_type_map !! onnx_data_type = Some webnn_data_type
         ∧ webnn_data_type ∈ webnn_supported_data_types).
Proof.
  unfold IsSupportedDataType.
  destruct (onnx_to_webnn_data_type_map !! onnx_data_type) as [tag|].
  - pose proof (includes_true_iff webnn_supported_data_types tag) as Hinc.
    destruct (includes webnn_supported_data_types tag); split; split.
    + done.
    + intros [?|(tag' & [= <-] & Hnot)]; [done|]. destruct Hnot. by apply Hinc.
    + intros _. exists tag. split; [done|]. by apply Hinc.
    + done.
    + intros _. right. exists tag. split; [done|].
      intros Hin. by apply Hinc in Hin.
    + done.
    + done.
    + intros (tag' & [= <-] & Hin). by apply Hinc in Hin.
  - split; split; try done.
    + intros _. by left.
    + intros (tag & ? & _). done.
Qed.

(** The tag [SetWebnnDataType] writes for a source element type: the
    mapping from source element types to backend type tags. *)
Lemma SetWebnnDataType_tag (desc : gmap string emscripten_val) (data_type : Z) :
  snd (SetWebnnDataType desc data_type) = true →
  ∃ tag, fst (SetWebnnDataType desc data_type)
         = <["dataType" := val_string tag]> desc
         ∧ desc_dataType (fst (SetWebnnDataType desc data_type)) = Some tag.
Proof.
  unfold SetWebnnDataType, desc_dataType.
  repeat (case_match; simpl; [intros _; eexists; split;
            [reflexivity | by rewrite lookup_insert_eq] |]).
  done.
Qed.

(** C10.  The boolean and the unsigned 8-bit source element types are
    distinct and [SetWebnnDataType] gives both the tag ["uint8"]: the
    mapping from source element types to backend tags is not injective.
    An allowed set that contains ["uint8"] contains the tag of both, and
    with a mapping table that agrees with [SetWebnnDataType] on the two
    types [IsSupportedDataType] accepts both. *)
Theorem SetWebnnDataType_bool_uint8 (desc : gmap string emscripten_val) :
  TensorProto_DataType_BOOL ≠ TensorProto_DataType_UINT8
  ∧ SetWebnnDataType desc TensorProto_DataType_BOOL
    = (<["dataType" := val_string "uint8"]> desc, true)
  ∧ SetWebnnDataType desc TensorProto_DataType_UINT8
    = (<["dataType" := val_string "uint8"]> desc, true)
  ∧ ¬ (∀ data_type1 data_type2,
          snd (SetWebnnDataType desc data_type1) = true →
          snd (SetWebnnDataType desc data_type2) = true →
          desc_dataType (fst (SetWebnnDataType desc data_type1))
          = desc_dataType (fst (SetWebnnDataType desc data_type2)) →
          data_type1 = data_type2)
  ∧ ∀ (webnn_supported_data_types : list string),
      "uint8" ∈ webnn_supported_data_types →
      (∀ data_type,
         data_type = TensorProto_DataType_BOOL
         ∨ data_type = TensorProto_DataType_UINT8 →
         ∃ tag,
           desc_dataType (fst (SetWebnnDataType desc data_type)) = Some tag
           ∧ includes webnn_supported_data_types tag = true)
      ∧ ∀ (onnx_to_webnn_data_type_map : gmap Z string),
          (∀ data_type,
             data_type = TensorProto_DataType_BOOL
             ∨ data_type = TensorProto_DataType_UINT8 →
             onnx_to_webnn_data_type_map !! data_type
             = desc_dataType (fst (SetWebnnDataType desc data_type))) →
          IsSupportedDataType onnx_to_webnn_data_type_map
            TensorProto_DataType_BOOL webnn_supported_data_types = true
          ∧ IsSupportedDataType onnx_to_webnn_data_type_map
              TensorProto_DataType_UINT8 webnn_supported_data_types = true.
Proof.
  assert (Htag : ∀ data_type,
            data_type = TensorProto_DataType_BOOL
            ∨ data_type = TensorProto_DataType_UINT8 →
            desc_dataType (fst (SetWebnnDataType desc data_type)) = Some "uint8").
  { intros data_type [->| ->]; unfold desc_dataType; simpl;
      by rewrite lookup_insert_eq. }
  split; [done|]. split; [done|]. split; [done|]. split.
  - intros Hinj.
    assert (TensorProto_DataType_BOOL = TensorProto_DataType_UINT8) as [=].
    apply Hinj; [done|done|]. rewrite !Htag; auto.
  - intros allowed Hin. apply includes_true_iff in Hin. split.
    + intros data_type Hdt. exists "uint8". by rewrite Htag.
    + intros table Hagree. unfold IsSupportedDataType.
      rewrite !Hagree, !Htag by auto. done.
Qed.

Lemma SetWebnnDataType_bool_uint8_witness :
  IsSupportedDataType sample_data_type_map TensorProto_DataType_BOOL
    ["float32"; "uint8"] = true
  ∧ IsSupportedDataType sample_data_type_map TensorProto_DataType_UINT8
      ["float32"; "uint8"] = true.
Proof.
  destruct (SetWebnnDataType_bool_uint8 ∅) as (_ & _ & _ & _ & Hallowed).
  refine (proj2 (Hallowed ["float32"; "uint8"] _) sample_data_type_map _).
  - apply includes_true_iff. reflexivity.
  - intros data_type [->| ->]; reflexivity.
Defined.

(** ** GraphPartitioner *)

Lemma value_bind {A B} (m : M A) (f : A → M B) :
  value (m ≫= f) = value (f (value m)).
Proof. reflexivity. Qed.

Lemma calls_bind {A B} (m : M A) (f : A → M B) :
  calls (m ≫= f) = calls m ++ calls (f (value m)).
Proof. reflexivity. Qed.

Lemma concat_close_group group groups :
  concat (close_group group groups) = group ++ concat groups.
Proof. by destruct group. Qed.

Lemma Forall_close_group group groups :
  Forall (λ g, g ≠ []) groups → Forall (λ g, g ≠ []) (close_group group groups).
Proof. unfold close_group. case_bool_decide; auto. Qed.

Lemma concat_finish_scan st : concat (finish_scan st) = concat st.1 ++ st.2.
Proof.
  unfold finish_scan. destruct st as [groups [|x group]]; simpl.
  - by rewrite app_nil_r.
  - rewrite concat_app. simpl. by rewrite app_nil_r.
Qed.

Lemma forallb_false_iff {A} (f : A → bool) (l : list A) :
  forallb f l = false ↔ ∃ x, x ∈ l ∧ f x = false.
Proof.
  induction l as [|y l IH]; simpl.
  - split; [done|]. by intros (x & ?%elem_of_nil & _).
  - rewrite andb_false_iff, IH. split.
    + intros [Hy|(x & Hin & Hx)]; [exists y|exists x]; split;
        try done; [by left|by right].
    + intros (x & [->|Hin]%elem_of_cons & Hx); [by left|right; by exists x].
Qed.

Lemma IsInputSupported_false_iff input parent_name :
  IsInputSupported input parent_name = false
  ↔ NodeArg_Name input ≠ ""
    ∧ (NodeArg_Shape input = None
       ∨ ∃ dims dim, NodeArg_Shape input = Some dims
                     ∧ dim ∈ dims ∧ has_dim_value dim = false).
Proof.
  unfold IsInputSupported. case_bool_decide as Hname.
  - split; [done|]. by intros [? _].
  - destruct (NodeArg_Shape input) as [dims|].
    + rewrite forallb_false_iff. split.
      * intros (dim & Hin & Hdim). split; [done|].
        right. by exists dims, dim.
      * intros (_ & [?|(dims' & dim & [= <-] & Hin & Hdim)]); [done|].
        by exists dim.
    + split; [|done]. intros _. split; [done|]. by left.
Qed.

Section PartitionerProperties.
Variable CheckSingleOp : string → emscripten_val → WebnnDeviceType → bool.
Variable GetOpBuilders : gmap string OpBuilder.
Variable graph_viewer : GraphViewer.
Variable wnn_builder : emscripten_val.
Variable device_type : WebnnDeviceType.
Variable wnn_limits : emscripten_val.

Abbreviation supported :=
  (is_supported CheckSingleOp GetOpBuilders graph_viewer wnn_builder device_type wnn_limits).
Abbreviation scan :=
  (scan_nodes CheckSingleOp GetOpBuilders graph_viewer wnn_builder device_type wnn_limits).
Abbreviation check_node :=
  (node_supported CheckSingleOp GetOpBuilders graph_viewer wnn_builder device_type wnn_limits).

Lemma value_node_supported node_idx :
  value (check_node (GraphViewer_GetNode graph_viewer node_idx)) = supported node_idx.
Proof.
  unfold node_supported, is_supported. rewrite value_bind. simpl.
  by destruct (CheckSingleOp _ _ _).
Qed.

Lemma value_scan_cons node_idx rest groups group :
  value (scan (node_idx :: rest) groups group)
  = value (if supported node_idx then scan rest groups (group ++ [node_idx])
           else if bool_decide (group ≠ []) then scan rest (groups ++ [group]) []
           else scan rest groups group).
Proof.
  cbn [scan_nodes]. cbv zeta. rewrite value_bind, value_node_supported.
  by destruct (supported node_idx).
Qed.

Lemma value_scan_app l1 l2 groups group :
  value (scan (l1 ++ l2) groups group)
  = value (scan l2 (value (scan l1 groups group)).1 (value (scan l1 groups group)).2).
Proof.
  revert groups group. induction l1 as [|x l1 IH]; intros groups group; [done|].
  rewrite <- app_comm_cons, !value_scan_cons.
  destruct (supported x); [apply IH|]. case_bool_decide; apply IH.
Qed.

(** Where the scan stands after [l]: everything supported so far, in order. *)
Lemma value_scan_state l groups group :
  concat (value (scan l groups group)).1 ++ (value (scan l groups group)).2
  = concat groups ++ group ++ List.filter supported l.
Proof.
  revert groups group. induction l as [|x l IH]; intros groups group.
  - simpl. by rewrite app_nil_r.
  - rewrite value_scan_cons. simpl List.filter.
    destruct (supported x) eqn:Hx.
    + rewrite IH. by rewrite <- (assoc_L (++) group).
    + case_bool_decide as Hg.
      * rewrite IH, concat_app. simpl. by rewrite !app_nil_r, <- !(assoc_L (++)).
      * apply IH.
Qed.

(** What the scan and the final flush produce from a given state. *)
Lemma finish_scan_spec l groups group :
  ∃ tail later,
    finish_scan (value (scan l groups group))
    = groups ++ close_group (group ++ tail) later
    ∧ tail ++ concat later = List.filter supported l
    ∧ Forall (λ g, g ≠ []) later.
Proof.
  revert groups group. induction l as [|x l IH]; intros groups group.
  - exists [], []. rewrite app_nil_r. split; [|done].
    unfold finish_scan, close_group. simpl.
    destruct group; simpl; [by rewrite app_nil_r|done].
  - rewrite value_scan_cons. simpl List.filter.
    destruct (supported x) eqn:Hx.
    + destruct (IH groups (group ++ [x])) as (tail & later & -> & Hf & Hne).
      exists (x :: tail), later. rewrite <- (assoc_L (++) group). simpl.
      split; [done|]. split; [by rewrite <- Hf|done].
    + case_bool_decide as Hg.
      * destruct (IH (groups ++ [group]) []) as (tail & later & -> & Hf & Hne).
        exists [], (close_group tail later).
        rewrite app_nil_r, concat_close_group. simpl.
        split; [|split; [done|by apply Forall_close_group]].
        rewrite <- (assoc_L (++)). simpl. unfold close_group at 2.
        by rewrite bool_decide_true.
      * assert (group = []) as -> by (by destruct group).
        destruct (IH groups []) as (tail & later & -> & Hf & Hne).
        exists [], (close_group tail later).
        rewrite concat_close_group. simpl.
        split; [|split; [done|by apply Forall_close_group]].
        unfold close_group at 2. by rewrite bool_decide_false by (by intros []).
Qed.

Abbreviation partition :=
  (GetSupportedNodes CheckSingleOp GetOpBuilders graph_viewer wnn_builder device_type wnn_limits).

Lemma value_inputs_supported inputs :
  value (inputs_supported inputs)
  = forallb (λ input, IsInputSupported input "graph") inputs.
Proof.
  induction inputs as [|input rest IH]; [done|].
  cbn [inputs_supported forallb]. rewrite value_bind. simpl.
  by destruct (IsInputSupported input "graph").
Qed.

Lemma calls_inputs_supported inputs c :
  c ∈ calls (inputs_supported inputs) → ∃ input, c = Call_IsInputSupported input.
Proof.
  induction inputs as [|input rest IH]; cbn [inputs_supported].
  - by intros ?%elem_of_nil.
  - rewrite calls_bind. simpl. intros [->|Hc]%elem_of_cons; [by eexists|].
    destruct (IsInputSupported input "graph"); [auto|].
    by apply elem_of_nil in Hc.
Qed.

Lemma value_GetSupportedNodes :
  value partition
  = if forallb (λ input, IsInputSupported input "graph")
         (GraphViewer_GetInputs graph_viewer)
    then finish_scan
           (value (scan (GraphViewer_GetNodesInTopologicalOrder graph_viewer) [] []))
    else [].
Proof.
  unfold GetSupportedNodes. cbv zeta.
  rewrite value_bind, value_inputs_supported.
  destruct (forallb _ _); [|done].
  rewrite value_bind. unfold finish_scan.
  destruct (value (scan _ [] [])) as [groups group]. simpl.
  by case_bool_decide.
Qed.

Lemma calls_scan l groups group :
  calls (scan l groups group)
  = flat_map (λ node_idx, calls (check_node (GraphViewer_GetNode graph_viewer node_idx))) l.
Proof.
  revert groups group. induction l as [|x l IH]; intros groups group; [done|].
  cbn [scan_nodes flat_map]. cbv zeta. rewrite calls_bind. f_equal.
  destruct (value _); [apply IH|]. case_bool_decide; apply IH.
Qed.

Lemma calls_GetSupportedNodes :
  ∃ input_calls,
    Forall (λ c, ∃ input, c = Call_IsInputSupported input) input_calls
    ∧ calls partition
      = input_calls
        ++ if forallb (λ input, IsInputSupported input "graph")
                (GraphViewer_GetInputs graph_viewer)
           then flat_map
                  (λ node_idx, calls (check_node (GraphViewer_GetNode graph_viewer node_idx)))
                  (GraphViewer_GetNodesInTopologicalOrder graph_viewer)
           else [].
Proof.
  exists (calls (inputs_supported (GraphViewer_GetInputs graph_viewer))). split.
  - apply Forall_forall. intros c. apply calls_inputs_supported.
  - unfold GetSupportedNodes. cbv zeta.
    rewrite calls_bind, value_inputs_supported. f_equal.
    destruct (forallb _ _); [|done].
    rewrite calls_bind, calls_scan.
    destruct (value (scan _ [] [])) as [groups group]. simpl.
    case_bool_decide; simpl; by rewrite app_nil_r.
Qed.

Lemma calls_node_supported node :
  calls (check_node node)
  = Call_CheckSingleOp (Node_OpType node)
    :: if CheckSingleOp (Node_OpType node) wnn_builder device_type
       then [Call_IsNodeSupported node] else [].
Proof.
  unfold node_supported. rewrite calls_bind. simpl.
  by destruct (CheckSingleOp _ _ _).
Qed.

(** An instance check in the trace of node checks comes right after the
    platform check of the same node, which passed. *)
Lemma node_calls_guarded l before node after :
  flat_map (λ node_idx, calls (check_node (GraphViewer_GetNode graph_viewer node_idx))) l
  = before ++ Call_IsNodeSupported node :: after →
  CheckSingleOp (Node_OpType node) wnn_builder device_type = true
  ∧ ∃ earlier, before = earlier ++ [Call_CheckSingleOp (Node_OpType node)].
Proof.
  revert before. induction l as [|x l IH]; intros before; cbn [flat_map].
  - by destruct before.
  - rewrite calls_node_supported.
    set (node_x := GraphViewer_GetNode graph_viewer x).
    destruct before as [|c0 before]; [done|].
    rewrite <- !app_comm_cons. intros [= <- Hrest].
    destruct (CheckSingleOp (Node_OpType node_x) wnn_builder device_type)
      eqn:Hplatform.
    + destruct before as [|c1 before]; simpl in Hrest.
      * injection Hrest as <- _. split; [done|]. by exists [].
      * injection Hrest as <- Hrest.
        destruct (IH _ Hrest) as (? & earlier & ->). split; [done|].
        by exists (Call_CheckSingleOp (Node_OpType node_x)
                     :: Call_IsNodeSupported node_x :: earlier).
    + destruct (IH _ Hrest) as (? & earlier & ->). split; [done|].
      by exists (Call_CheckSingleOp (Node_OpType node_x) :: earlier).
Qed.

Lemma input_calls_guarded input_calls trace before node after :
  Forall (λ c, ∃ input, c = Call_IsInputSupported input) input_calls →
  input_calls ++ trace = before ++ Call_IsNodeSupported node :: after →
  ∃ before', before = input_calls ++ before'
             ∧ trace = before' ++ Call_IsNodeSupported node :: after.
Proof.
  intros Hinputs. revert before.
  induction Hinputs as [|c input_calls [input ->] _ IH]; intros before; simpl.
  - intros ->. by exists before.
  - destruct before as [|c0 before]; [done|]. simpl. intros [= <- Hrest].
    destruct (IH _ Hrest) as (before' & -> & ->). by exists before'.
Qed.

(** C1, amended.  When every graph-level input passes [IsInputSupported]:
    two nodes that are consecutive in the topological order and both
    supported stand next to each other in one group; the nodes before and
    after an unsupported node are in different groups (the unsupported
    node ends the current group); and no group is empty, so adjacent
    unsupported nodes leave no empty group between them. *)
Theorem GetSupportedNodes_maximal_groups :
  (∀ input, input ∈ GraphViewer_GetInputs graph_viewer →
            IsInputSupported input "graph" = true) →
  let groups := value partition in
  let node_indices := GraphViewer_GetNodesInTopologicalOrder graph_viewer in
  (∀ before a b after,
      node_indices = before ++ a :: b :: after →
      supported a = true → supported b = true →
      ∃ earlier head tail later,
        groups = earlier ++ (head ++ a :: b :: tail) :: later
        ∧ concat earlier ++ head = List.filter supported before
        ∧ tail ++ concat later = List.filter supported after)
  ∧ (∀ before u after,
      node_indices = before ++ u :: after →
      supported u = false →
      ∃ earlier later,
        groups = earlier ++ later
        ∧ concat earlier = List.filter supported before
        ∧ concat later = List.filter supported after)
  ∧ Forall (λ group, group ≠ []) groups.
Proof.
  intros Hinputs. cbv zeta. rewrite value_GetSupportedNodes.
  replace (forallb _ _) with true; cycle 1.
  { symmetry. apply forallb_forall. intros input Hin.
    by apply Hinputs, list_elem_of_In. }
  split; [|split].
  - intros before a b after -> Ha Hb.
    rewrite value_scan_app, value_scan_cons, Ha, value_scan_cons, Hb.
    pose proof (value_scan_state before [] []) as Hstate.
    destruct (value (scan before [] [])) as [earlier head]. simpl in *.
    destruct (finish_scan_spec after earlier ((head ++ [a]) ++ [b]))
      as (tail & later & -> & Hf & _).
    exists earlier, head, tail, later.
    rewrite <- !(assoc_L (++)). simpl. split; [|done].
    unfold close_group. rewrite bool_decide_true; [done|]. by destruct head.
  - intros before u after -> Hu.
    rewrite value_scan_app, value_scan_cons, Hu.
    pose proof (value_scan_state before [] []) as Hstate.
    destruct (value (scan before [] [])) as [earlier head]. simpl in *.
    destruct head as [|x head]; simpl.
    + destruct (finish_scan_spec after earlier []) as (tail & later & -> & Hf & _).
      exists earlier, (close_group tail later). rewrite concat_close_group.
      rewrite app_nil_r in Hstate. done.
    + destruct (finish_scan_spec after (earlier ++ [x :: head]) [])
        as (tail & later & -> & Hf & _).
      exists (earlier ++ [x :: head]), (close_group tail later).
      rewrite concat_close_group, concat_app. simpl. by rewrite app_nil_r.
  - destruct (finish_scan_spec (GraphViewer_GetNodesInTopologicalOrder graph_viewer) [] [])
      as (tail & later & -> & _ & Hne).
    simpl. by apply Forall_close_group.
Qed.

(** C2.  Every node index in a group returned by [GetSupportedNodes]
    passes the platform check [CheckSingleOp] and the instance check
    [IsNodeSupported]; and every call of [IsNodeSupported] that
    [GetSupportedNodes] makes comes directly after the call of
    [CheckSingleOp] for the same node, which answered [true]. *)
Theorem GetSupportedNodes_sound :
  let result := partition in
  (∀ group node_idx,
      group ∈ value result → node_idx ∈ group →
      CheckSingleOp (Node_OpType (GraphViewer_GetNode graph_viewer node_idx))
        wnn_builder device_type = true
      ∧ IsNodeSupported GetOpBuilders (GraphViewer_GetNode graph_viewer node_idx)
          graph_viewer device_type wnn_limits = true)
  ∧ (∀ before node after,
      calls result = before ++ Call_IsNodeSupported node :: after →
      CheckSingleOp (Node_OpType node) wnn_builder device_type = true
      ∧ ∃ earlier, before = earlier ++ [Call_CheckSingleOp (Node_OpType node)]).
Proof.
  cbv zeta. split.
  - intros group node_idx Hgroup Hidx.
    assert (node_idx ∈ concat (value partition)) as Hin.
    { apply list_elem_of_In, in_concat. exists group.
      split; by apply list_elem_of_In. }
    rewrite value_GetSupportedNodes in Hin.
    destruct (forallb _ _); [|by apply elem_of_nil in Hin].
    rewrite concat_finish_scan, value_scan_state in Hin. simpl in Hin.
    apply list_elem_of_In, filter_In in Hin as [_ Hsup].
    unfold is_supported in Hsup. by apply andb_true_iff in Hsup.
  - intros before node after Hcalls.
    destruct calls_GetSupportedNodes as (input_calls & Hinputs & Heq).
    rewrite Heq in Hcalls.
    destruct (input_calls_guarded _ _ _ _ _ Hinputs Hcalls) as (before' & -> & Htrace).
    destruct (forallb _ _); [|by destruct before'].
    destruct (node_calls_guarded _ _ _ _ Htrace) as (Hplatform & earlier & ->).
    split; [done|]. exists (input_calls ++ earlier). by rewrite (assoc_L (++)).
Qed.

(** C3.  An input with an empty name is always eligible.  If some
    graph-level input with a non-empty name has no shape, or has a
    dimension without a concrete value, [GetSupportedNodes] returns the
    empty list of groups and the only calls it makes are calls of
    [IsInputSupported]: no node is examined. *)
Theorem GetSupportedNodes_input_short_circuit :
  (∀ input parent_name,
      NodeArg_Name input = "" → IsInputSupported input parent_name = true)
  ∧ (∀ input,
      input ∈ GraphViewer_GetInputs graph_viewer →
      NodeArg_Name input ≠ "" →
      (NodeArg_Shape input = None
       ∨ ∃ dims dim, NodeArg_Shape input = Some dims
                     ∧ dim ∈ dims ∧ has_dim_value dim = false) →
      value partition = []
      ∧ ∀ c, c ∈ calls partition → ∃ input', c = Call_IsInputSupported input').
Proof.
  split.
  - intros input parent_name Hname. unfold IsInputSupported.
    by rewrite bool_decide_true.
  - intros input Hin Hname Hshape.
    assert (forallb (λ input, IsInputSupported input "graph")
              (GraphViewer_GetInputs graph_viewer) = false) as Hfalse.
    { apply forallb_false_iff. exists input. split; [done|].
      by apply IsInputSupported_false_iff. }
    split.
    + by rewrite value_GetSupportedNodes, Hfalse.
    + destruct calls_GetSupportedNodes as (input_calls & Hinputs & ->).
      rewrite Hfalse, app_nil_r. intros c Hc.
      by apply (proj1 (Forall_forall _ _) Hinputs).
Qed.
End PartitionerProperties.

(** C1, as stated, fails on a graph with an ineligible input: nodes 0 and 1
    are consecutive and both supported, and the input ["y"] has no shape;
    [GetSupportedNodes] returns no group, so no group holds the two. *)
Lemma GetSupportedNodes_supported_pair_in_no_group :
  GraphViewer_GetNodesInTopologicalOrder
    (sample_viewer top_graph [shapeless_input] [0%N; 1%N]) = [0%N; 1%N]
  ∧ is_supported sample_CheckSingleOp {[ "Reshape" := lenient_builder ]}
      (sample_viewer top_graph [shapeless_input] [0%N; 1%N])
      val_undefined CPU val_undefined 0%N = true
  ∧ is_supported sample_CheckSingleOp {[ "Reshape" := lenient_builder ]}
      (sample_viewer top_graph [shapeless_input] [0%N; 1%N])
      val_undefined CPU val_undefined 1%N = true
  ∧ value (GetSupportedNodes sample_CheckSingleOp {[ "Reshape" := lenient_builder ]}
             (sample_viewer top_graph [shapeless_input] [0%N; 1%N])
             val_undefined CPU val_undefined) = []
  ∧ ¬ ∃ group,
        group ∈ value (GetSupportedNodes sample_CheckSingleOp
                         {[ "Reshape" := lenient_builder ]}
                         (sample_viewer top_graph [shapeless_input] [0%N; 1%N])
                         val_undefined CPU val_undefined)
        ∧ 0%N ∈ group ∧ 1%N ∈ group.
Proof.
  repeat split; try reflexivity.
  intros (group & Hgroup & _). by apply elem_of_nil in Hgroup.
Qed.

Lemma GetSupportedNodes_maximal_groups_witness :
  (∃ earlier head tail later,
      value (GetSupportedNodes sample_CheckSingleOp {[ "Reshape" := lenient_builder ]}
               (sample_viewer top_graph [static_input] [0%N; 1%N; 2%N; 3%N])
               val_undefined CPU val_undefined)
      = earlier ++ (head ++ 0%N :: 1%N :: tail) :: later
      ∧ concat earlier ++ head = []
      ∧ tail ++ concat later = [3%N])
  ∧ value (GetSupportedNodes sample_CheckSingleOp {[ "Reshape" := lenient_builder ]}
             (sample_viewer top_graph [static_input] [0%N; 1%N; 2%N; 3%N])
             val_undefined CPU val_undefined)
    = [[0%N; 1%N]; [3%N]].
Proof.
  split; [|reflexivity].
  assert (∀ input,
            input ∈ GraphViewer_GetInputs
                      (sample_viewer top_graph [static_input] [0%N; 1%N; 2%N; 3%N]) →
            IsInputSupported input "graph" = true) as Hinputs.
  { intros input Hin. apply list_elem_of_singleton in Hin as ->. reflexivity. }
  destruct (GetSupportedNodes_maximal_groups sample_CheckSingleOp
              {[ "Reshape" := lenient_builder ]}
              (sample_viewer top_graph [static_input] [0%N; 1%N; 2%N; 3%N])
              val_undefined CPU val_undefined Hinputs) as [Hpair _].
  apply (Hpair [] 0%N 1%N [2%N; 3%N]); reflexivity.
Defined.

Lemma GetSupportedNodes_sound_witness :
  sample_CheckSingleOp (Node_OpType (sample_node 1%N)) val_undefined CPU = true
  ∧ IsNodeSupported {[ "Reshape" := lenient_builder ]} (sample_node 1%N)
      (sample_viewer top_graph [static_input] [0%N; 1%N; 2%N; 3%N])
      CPU val_undefined = true.
Proof.
  destruct (GetSupportedNodes_sound sample_CheckSingleOp
              {[ "Reshape" := lenient_builder ]}
              (sample_viewer top_graph [static_input] [0%N; 1%N; 2%N; 3%N])
              val_undefined CPU val_undefined) as [Hgroups _].
  apply (Hgroups [0%N; 1%N] 1%N).
  - change ([0%N; 1%N] ∈ [[0%N; 1%N]; [3%N]]). apply list_elem_of_here.
  - apply list_elem_of_further, list_elem_of_here.
Defined.

Lemma GetSupportedNodes_input_short_circuit_witness :
  value (GetSupportedNodes sample_CheckSingleOp {[ "Reshape" := lenient_builder ]}
           (sample_viewer top_graph [static_input; dynamic_input] [0%N; 1%N])
           val_undefined CPU val_undefined) = []
  ∧ ∀ c,
      c ∈ calls (GetSupportedNodes sample_CheckSingleOp
                   {[ "Reshape" := lenient_builder ]}
                   (sample_viewer top_graph [static_input; dynamic_input] [0%N; 1%N])
                   val_undefined CPU val_undefined) →
      ∃ input, c = Call_IsInputSupported input.
Proof.
  destruct (GetSupportedNodes_input_short_circuit sample_CheckSingleOp
              {[ "Reshape" := lenient_builder ]}
              (sample_viewer top_graph [static_input; dynamic_input] [0%N; 1%N])
              val_undefined CPU val_undefined) as [_ Hshort].
  apply (Hshort dynamic_input).
  - apply list_elem_of_further, list_elem_of_here.
  - discriminate.
  - right. exists [dim_of_param "batch"; dim_of_value 6], (dim_of_param "batch").
    split; [reflexivity|]. split; [apply list_elem_of_here|reflexivity].
Defined.

(** ** ShapeOps *)

Local Close Scope string_scope.

#[local] Arguments size_t_wrap : simpl never.
#[local] Arguments vector_at : simpl never.
#[local] Arguments vector_store : simpl never.

Lemma size_t_wrap_small z : (0 ≤ z < 2 ^ 64)%Z → size_t_wrap z = z.
Proof. intros. unfold size_t_wrap. by apply Z.mod_small. Qed.

Lemma vector_at_from_end v (k : nat) :
  (vector_size v < 2 ^ 64)%Z → (k < length v)%nat →
  vector_at v (size_t_wrap (vector_size v - Z.of_nat k - 1)) = dim_from_end v k.
Proof.
  unfold vector_size, vector_at, dim_from_end. intros Hsize Hk.
  rewrite size_t_wrap_small by lia. rewrite bool_decide_true by lia.
  rewrite reverse_lookup by done. f_equal. lia.
Qed.

Lemma vector_store_from_end v (n k : nat) x :
  (Z.of_nat n < 2 ^ 64)%Z → length v = n → (k < n)%nat →
  vector_store v (size_t_wrap (Z.of_nat n - Z.of_nat k - 1)) x
  = Some (<[n - S k := x]> v).
Proof.
  unfold vector_store, vector_size. intros Hsize Hlen Hk.
  rewrite size_t_wrap_small by lia. rewrite bool_decide_true by lia.
  do 2 f_equal. lia.
Qed.

Lemma dim_from_end_insert (v : list Z) (k : nat) x (j : nat) :
  (k < length v)%nat →
  dim_from_end (<[length v - S k := x]> v) j
  = if decide (j = k) then Some x else dim_from_end v j.
Proof.
  unfold dim_from_end. intros Hk.
  destruct (decide (j < length v)) as [Hj|Hj].
  - rewrite !reverse_lookup by (by rewrite ?length_insert).
    rewrite length_insert, list_lookup_insert.
    repeat case_decide; try done; lia.
  - rewrite !(proj2 (lookup_ge_None _ _))
      by (rewrite length_reverse, ?length_insert; lia).
    case_decide; [lia|done].
Qed.

Lemma dim_from_end_is_Some (v : list Z) (k : nat) : (k < length v)%nat → is_Some (dim_from_end v k).
Proof. intros. apply lookup_lt_is_Some. by rewrite length_reverse. Qed.

Lemma dim_from_end_None (v : list Z) (k : nat) : (length v ≤ k)%nat → dim_from_end v k = None.
Proof. intros. apply lookup_ge_None. by rewrite length_reverse. Qed.

Section BroadcastProperties.
Variables shape_a shape_b : list Z.
Hypothesis size_a_fits : (vector_size shape_a < 2 ^ 64)%Z.
Hypothesis size_b_fits : (vector_size shape_b < 2 ^ 64)%Z.

Abbreviation n := (length shape_a `max` length shape_b).

Lemma broadcast_loop_spec (remaining k : nat) output_shape :
  k + remaining = n → length output_shape = n →
  ∃ ok output_shape',
    broadcast_loop shape_a shape_b remaining (Z.of_nat k) output_shape
    = Some (ok, output_shape')
    ∧ length output_shape' = n
    ∧ (∀ j, j < k → dim_from_end output_shape' j = dim_from_end output_shape j)
    ∧ if ok then
        ∀ j, k ≤ j < n →
             compatible_at shape_a shape_b j
             ∧ dim_from_end output_shape' j = broadcast_dim_at shape_a shape_b j
      else
        ∃ bad, k ≤ bad < length shape_a `min` length shape_b
          ∧ ¬ compatible_at shape_a shape_b bad
          ∧ (∀ j, k ≤ j < bad →
               compatible_at shape_a shape_b j
               ∧ dim_from_end output_shape' j = broadcast_dim_at shape_a shape_b j)
          ∧ (∀ j, bad ≤ j → dim_from_end output_shape' j = dim_from_end output_shape j).
Proof.
  revert k output_shape.
  induction remaining as [|remaining IH]; intros k out Hk Hlen.
  { exists true, out. repeat split; try done; lia. }
  assert (Hstep : ∀ dim,
             compatible_at shape_a shape_b k →
             broadcast_dim_at shape_a shape_b k = Some dim →
             ∃ ok output_shape',
               broadcast_loop shape_a shape_b remaining (Z.of_nat k + 1)
                 (<[n - S k := dim]> out) = Some (ok, output_shape')
               ∧ length output_shape' = n
               ∧ (∀ j, j < k → dim_from_end output_shape' j = dim_from_end out j)
               ∧ if ok then
                   ∀ j, k ≤ j < n →
                        compatible_at shape_a shape_b j
                        ∧ dim_from_end output_shape' j = broadcast_dim_at shape_a shape_b j
                 else
                   ∃ bad, k ≤ bad < length shape_a `min` length shape_b
                     ∧ ¬ compatible_at shape_a shape_b bad
                     ∧ (∀ j, k ≤ j < bad →
                          compatible_at shape_a shape_b j
                          ∧ dim_from_end output_shape' j = broadcast_dim_at shape_a shape_b j)
                     ∧ (∀ j, bad ≤ j → dim_from_end output_shape' j = dim_from_end out j)).
  { intros dim Hcompat Hdim.
    assert (Hwritten : ∀ j, dim_from_end (<[n - S k := dim]> out) j
                            = if decide (j = k) then Some dim else dim_from_end out j).
    { intros j. rewrite <- Hlen. apply dim_from_end_insert. lia. }
    destruct (IH (S k) (<[n - S k := dim]> out)) as (ok & out' & Hrun & Hlen' & Hframe & Hres);
      [lia|by rewrite length_insert|].
    exists ok, out'. replace (Z.of_nat k + 1)%Z with (Z.of_nat (S k)) by lia.
    split; [done|]. split; [done|]. split.
    - intros j Hj. rewrite Hframe, Hwritten by lia. case_decide; [lia|done].
    - destruct ok.
      + intros j Hj. destruct (decide (j = k)) as [->|Hne].
        * split; [done|]. rewrite Hframe, Hwritten by lia. by rewrite decide_True.
        * apply Hres. lia.
      + destruct Hres as (bad & Hbad & Hnot & Hbefore & Hafter).
        exists bad. split; [lia|]. split; [done|]. split.
        * intros j Hj. destruct (decide (j = k)) as [->|Hne].
          -- split; [done|]. rewrite Hframe, Hwritten by lia. by rewrite decide_True.
          -- apply Hbefore. lia.
        * intros j Hj. rewrite Hafter, Hwritten by done. case_decide; [lia|done]. }
  cbn [broadcast_loop]. cbv zeta.
  assert (Hlarger : Z.max (vector_size shape_a) (vector_size shape_b) = Z.of_nat n)
    by (unfold vector_size; lia).
  rewrite Hlarger.
  case_bool_decide as Hboth.
  - unfold vector_size in Hboth.
    rewrite !vector_at_from_end by (done || lia).
    destruct (dim_from_end_is_Some shape_a k) as [a Ha]; [lia|].
    destruct (dim_from_end_is_Some shape_b k) as [b Hb]; [lia|].
    rewrite Ha, Hb. simpl.
    destruct (bool_decide (a ≠ b) && bool_decide (a ≠ 1%Z) && bool_decide (b ≠ 1%Z))
      eqn:Hclash.
    + exists false, out. split; [done|]. split; [done|]. split; [done|].
      exists k. split; [lia|]. split; [|split; [intros; lia|done]].
      intros Hcompat. specialize (Hcompat a b Ha Hb).
      apply andb_true_iff in Hclash as [[H1 H2]%andb_true_iff H3].
      apply bool_decide_eq_true in H1, H2, H3.
      unfold dims_compatible in Hcompat. tauto.
    + rewrite (vector_store_from_end out n k) by (unfold vector_size in *; lia).
      simpl. apply Hstep.
      * intros a' b' Ha' Hb'. rewrite Ha in Ha'. rewrite Hb in Hb'.
        injection Ha' as <-. injection Hb' as <-.
        apply andb_false_iff in Hclash as [[H1|H2]%andb_false_iff|H3].
        -- apply bool_decide_eq_false in H1. left. by apply dec_stable.
        -- apply bool_decide_eq_false in H2. right; left. by apply dec_stable.
        -- apply bool_decide_eq_false in H3. right; right. by apply dec_stable.
      * unfold broadcast_dim_at. by rewrite Ha, Hb.
  - unfold vector_size in Hboth.
    case_bool_decide as Hlonger; unfold vector_size in Hlonger.
    + rewrite vector_at_from_end by (done || lia).
      destruct (dim_from_end_is_Some shape_a k) as [a Ha]; [lia|].
      rewrite Ha. simpl.
      rewrite (vector_store_from_end out n k) by (unfold vector_size in *; lia).
      simpl. apply Hstep.
      * intros a' b' _ Hb'. rewrite dim_from_end_None in Hb' by lia. done.
      * unfold broadcast_dim_at. rewrite Ha, dim_from_end_None by lia. done.
    + rewrite vector_at_from_end by (done || lia).
      destruct (dim_from_end_is_Some shape_b k) as [b Hb]; [lia|].
      rewrite Hb. simpl.
      rewrite (vector_store_from_end out n k) by (unfold vector_size in *; lia).
      simpl. apply Hstep.
      * intros a' b' Ha' _. rewrite dim_from_end_None in Ha' by lia. done.
      * unfold broadcast_dim_at. rewrite Hb, dim_from_end_None by lia. done.
Qed.

(** The whole call: the resize, then the loop from offset 0. *)
Lemma GetBidirectionalBroadcastShape_spec output_shape :
  ∃ ok output_shape',
    GetBidirectionalBroadcastShape shape_a shape_b output_shape
    = Some (ok, output_shape')
    ∧ length output_shape' = n
    ∧ if ok then
        ∀ j, compatible_at shape_a shape_b j
             ∧ dim_from_end output_shape' j = broadcast_dim_at shape_a shape_b j
      else
        ∃ bad, bad < length shape_a `min` length shape_b
          ∧ ¬ compatible_at shape_a shape_b bad
          ∧ (∀ j, j < bad →
               compatible_at shape_a shape_b j
               ∧ dim_from_end output_shape' j = broadcast_dim_at shape_a shape_b j)
          ∧ (∀ j, bad ≤ j →
               dim_from_end output_shape' j
               = dim_from_end (resize n 0%Z output_shape) j).
Proof.
  unfold GetBidirectionalBroadcastShape. cbv zeta.
  replace (Z.to_nat (Z.max (vector_size shape_a) (vector_size shape_b))) with n
    by (unfold vector_size; lia).
  destruct (broadcast_loop_spec n 0 (resize n 0%Z output_shape))
    as (ok & out' & Hrun & Hlen & _ & Hres); [lia|apply length_resize|].
  exists ok, out'. split; [exact Hrun|]. split; [done|]. destruct ok.
  - intros j. destruct (decide (j < n)) as [Hj|Hj]; [apply Hres; lia|]. split.
    + intros a b Ha. rewrite dim_from_end_None in Ha by lia. done.
    + unfold broadcast_dim_at. rewrite !dim_from_end_None by lia. done.
  - destruct Hres as (bad & Hbad & Hnot & Hbefore & Hafter).
    exists bad. split; [lia|]. split; [done|]. split; [|done].
    intros j Hj. apply Hbefore. lia.
Qed.
End BroadcastProperties.

Lemma compatible_at_comm shape_a shape_b j :
  compatible_at shape_a shape_b j → compatible_at shape_b shape_a j.
Proof.
  intros Hcompat b a Hb Ha. destruct (Hcompat a b Ha Hb) as [->|[->| ->]];
    unfold dims_compatible; auto.
Qed.

Lemma broadcast_dim_at_comm shape_a shape_b j :
  broadcast_dim_at shape_a shape_b j = broadcast_dim_at shape_b shape_a j.
Proof.
  unfold broadcast_dim_at.
  destruct (dim_from_end shape_a j), (dim_from_end shape_b j); try done.
  by rewrite Z.max_comm.
Qed.

Lemma dim_from_end_ext (v w : list Z) :
  (∀ j, dim_from_end v j = dim_from_end w j) → v = w.
Proof.
  intros Hall. rewrite <- (reverse_involutive v), <- (reverse_involutive w).
  f_equal. by apply list_eq.
Qed.

(** C4.  [GetBidirectionalBroadcastShape] right-aligns the two shapes.
    It succeeds exactly when, at every offset from the end that both
    shapes cover, the two dimensions are equal or one of them is 1.  On
    success the output has length [max (length shape_a) (length shape_b)],
    its dimension at an offset both cover is the maximum of the two, and at
    an offset only the longer shape covers it is that shape's dimension.
    [[2;3;4]] with [[3;4]] gives [[2;3;4]]; [[2;3]] with [[4;3]] fails. *)
Theorem GetBidirectionalBroadcastShape_rule :
  (∀ shape_a shape_b output_shape : list Z,
      (vector_size shape_a < 2 ^ 64)%Z → (vector_size shape_b < 2 ^ 64)%Z →
      ∃ ok output_shape',
        GetBidirectionalBroadcastShape shape_a shape_b output_shape
        = Some (ok, output_shape')
        ∧ (ok = true
           ↔ ∀ i a b, dim_from_end shape_a i = Some a →
                      dim_from_end shape_b i = Some b →
                      dims_compatible a b)
        ∧ (ok = true →
           length output_shape' = length shape_a `max` length shape_b
           ∧ ∀ i,
               (∀ a b, dim_from_end shape_a i = Some a →
                       dim_from_end shape_b i = Some b →
                       dim_from_end output_shape' i = Some (Z.max a b))
               ∧ (∀ a, dim_from_end shape_a i = Some a →
                       dim_from_end shape_b i = None →
                       dim_from_end output_shape' i = Some a)
               ∧ (∀ b, dim_from_end shape_a i = None →
                       dim_from_end shape_b i = Some b →
                       dim_from_end output_shape' i = Some b)))
  ∧ (∀ output_shape,
       GetBidirectionalBroadcastShape [2; 3; 4]%Z [3; 4]%Z output_shape
       = Some (true, [2; 3; 4]%Z))
  ∧ (∀ output_shape, ∃ output_shape',
       GetBidirectionalBroadcastShape [2; 3]%Z [4; 3]%Z output_shape
       = Some (false, output_shape')).
Proof.
  split; [|split].
  - intros shape_a shape_b output_shape Ha Hb.
    destruct (GetBidirectionalBroadcastShape_spec shape_a shape_b Ha Hb output_shape)
      as (ok & out' & Hrun & Hlen & Hres).
    exists ok, out'. split; [done|]. destruct ok.
    + split; [split; [|done]|].
      * intros _ i. apply Hres.
      * intros _. split; [done|]. intros i. destruct (Hres i) as [_ ->].
        unfold broadcast_dim_at.
        repeat split; intros; simplify_eq; by repeat case_match; simplify_eq.
    + split; [split; [done|]|done].
      intros Hall. destruct Hres as (bad & _ & Hnot & _). destruct Hnot.
      intros a b. apply Hall.
  - intros output_shape. unfold GetBidirectionalBroadcastShape.
    change (Z.to_nat _) with 3.
    destruct output_shape as [|x [|y [|z [|? ?]]]]; reflexivity.
  - intros output_shape. unfold GetBidirectionalBroadcastShape.
    change (Z.to_nat _) with 2.
    destruct output_shape as [|x [|y [|? ?]]]; eexists; reflexivity.
Qed.

(** C7.  The call on [(shape_a, shape_b)] and the call on
    [(shape_b, shape_a)] return the same flag and, on success, the same
    output shape, whatever the output vectors held before. *)
Theorem GetBidirectionalBroadcastShape_symmetric
    (shape_a shape_b output_shape1 output_shape2 : list Z) :
  (vector_size shape_a < 2 ^ 64)%Z → (vector_size shape_b < 2 ^ 64)%Z →
  ∃ ok output_shape1' output_shape2',
    GetBidirectionalBroadcastShape shape_a shape_b output_shape1
    = Some (ok, output_shape1')
    ∧ GetBidirectionalBroadcastShape shape_b shape_a output_shape2
      = Some (ok, output_shape2')
    ∧ (ok = true → output_shape1' = output_shape2').
Proof.
  intros Ha Hb.
  destruct (GetBidirectionalBroadcastShape_spec shape_a shape_b Ha Hb output_shape1)
    as (ok1 & out1 & Hrun1 & Hlen1 & Hres1).
  destruct (GetBidirectionalBroadcastShape_spec shape_b shape_a Hb Ha output_shape2)
    as (ok2 & out2 & Hrun2 & Hlen2 & Hres2).
  destruct ok1, ok2.
  - exists true, out1, out2. split; [done|]. split; [done|]. intros _.
    apply dim_from_end_ext. intros j.
    destruct (Hres1 j) as [_ ->]. destruct (Hres2 j) as [_ ->].
    apply broadcast_dim_at_comm.
  - destruct Hres2 as (bad & _ & Hnot & _). destruct Hnot.
    apply compatible_at_comm, Hres1.
  - destruct Hres1 as (bad & _ & Hnot & _). destruct Hnot.
    apply compatible_at_comm, Hres2.
  - exists false, out1, out2. done.
Qed.



Lemma GetBidirectionalBroadcastShape_rule_witness :
  ∃ ok output_shape',
    GetBidirectionalBroadcastShape [3; 1]%Z [2; 1; 5]%Z [] = Some (ok, output_shape')
    ∧ (ok = true
       ↔ ∀ i a b, dim_from_end [3; 1]%Z i = Some a →
                  dim_from_end [2; 1; 5]%Z i = Some b →
                  dims_compatible a b)
    ∧ (ok = true →
       length output_shape' = 3
       ∧ ∀ i,
           (∀ a b, dim_from_end [3; 1]%Z i = Some a →
                   dim_from_end [2; 1; 5]%Z i = Some b →
                   dim_from_end output_shape' i = Some (Z.max a b))
           ∧ (∀ a, dim_from_end [3; 1]%Z i = Some a →
                   dim_from_end [2; 1; 5]%Z i = None →
                   dim_from_end output_shape' i = Some a)
           ∧ (∀ b, dim_from_end [3; 1]%Z i = None →
                   dim_from_end [2; 1; 5]%Z i = Some b →
                   dim_from_end output_shape' i = Some b)).
Proof.
  apply (proj1 GetBidirectionalBroadcastShape_rule [3; 1]%Z [2; 1; 5]%Z []);
    reflexivity.
Defined.

Lemma GetBidirectionalBroadcastShape_symmetric_witness :
  ∃ ok output_shape1' output_shape2',
    GetBidirectionalBroadcastShape [3; 1]%Z [2; 1; 5]%Z [] = Some (ok, output_shape1')
    ∧ GetBidirectionalBroadcastShape [2; 1; 5]%Z [3; 1]%Z [9]%Z
      = Some (ok, output_shape2')
    ∧ (ok = true → output_shape1' = output_shape2').
Proof.
  apply (GetBidirectionalBroadcastShape_symmetric [3; 1]%Z [2; 1; 5]%Z [] [9]%Z);
    reflexivity.
Defined.


(** ** ShapeOps, continued *)

Lemma GetBidirectionalBroadcastShape_success (shape_a shape_b output_shape result : list Z) :
  (vector_size shape_a < 2 ^ 64)%Z → (vector_size shape_b < 2 ^ 64)%Z →
  (∀ j, compatible_at shape_a shape_b j) →
  (∀ j, dim_from_end result j = broadcast_dim_at shape_a shape_b j) →
  GetBidirectionalBroadcastShape shape_a shape_b output_shape = Some (true, result).
Proof.
  intros Ha Hb Hcompat Hdims.
  destruct (GetBidirectionalBroadcastShape_spec shape_a shape_b Ha Hb output_shape)
    as ([|] & out' & -> & _ & Hres).
  - do 2 f_equal. apply dim_from_end_ext. intros j.
    destruct (Hres j) as [_ ->]. by rewrite Hdims.
  - destruct Hres as (bad & _ & Hnot & _). by destruct Hnot.
Qed.

Lemma GetBidirectionalBroadcastShape_success_inv
    (shape_a shape_b output_shape result : list Z) :
  (vector_size shape_a < 2 ^ 64)%Z → (vector_size shape_b < 2 ^ 64)%Z →
  GetBidirectionalBroadcastShape shape_a shape_b output_shape = Some (true, result) →
  (vector_size result < 2 ^ 64)%Z
  ∧ (∀ j, compatible_at shape_a shape_b j)
  ∧ (∀ j, dim_from_end result j = broadcast_dim_at shape_a shape_b j).
Proof.
  intros Ha Hb Hrun.
  destruct (GetBidirectionalBroadcastShape_spec shape_a shape_b Ha Hb output_shape)
    as (ok & out' & Hrun' & Hlen & Hres).
  rewrite Hrun in Hrun'. injection Hrun' as <- <-.
  split; [unfold vector_size in *; lia|]. split; intros j; apply Hres.
Qed.

Lemma dim_from_end_nil (j : nat) : dim_from_end [] j = None.
Proof. by apply dim_from_end_None; simpl; lia. Qed.

Lemma dim_from_end_Forall (P : Z → Prop) (shape : list Z) (j : nat) (d : Z) :
  Forall P shape → dim_from_end shape j = Some d → P d.
Proof.
  intros Hall Hd. apply (proj1 (Forall_forall _ _) Hall).
  apply elem_of_reverse. apply list_elem_of_lookup. by exists j.
Qed.

Lemma dim_from_end_replicate (k j : nat) (d : Z) :
  dim_from_end (replicate k d) j = if decide (j < k) then Some d else None.
Proof.
  unfold dim_from_end. rewrite reverse_replicate. case_decide.
  - by apply lookup_replicate_2.
  - apply lookup_replicate_None. lia.
Qed.

(** X14.  Broadcasting a shape with itself, with the empty shape on the
    right or with the empty shape on the left succeeds and returns the
    shape. *)
Theorem GetBidirectionalBroadcastShape_identities (shape output_shape : list Z) :
  (vector_size shape < 2 ^ 64)%Z →
  GetBidirectionalBroadcastShape shape shape output_shape = Some (true, shape)
  ∧ GetBidirectionalBroadcastShape shape [] output_shape = Some (true, shape)
  ∧ GetBidirectionalBroadcastShape [] shape output_shape = Some (true, shape).
Proof.
  intros Hfits.
  assert (vector_size [] < 2 ^ 64)%Z as Hnil by reflexivity.
  split; [|split]; apply GetBidirectionalBroadcastShape_success; try assumption.
  - intros j a b Ha Hb. left. congruence.
  - intros j. unfold broadcast_dim_at.
    destruct (dim_from_end shape j); [|done]. by rewrite Z.max_id.
  - intros j a b _ Hb. by rewrite dim_from_end_nil in Hb.
  - intros j. unfold broadcast_dim_at. rewrite dim_from_end_nil.
    by destruct (dim_from_end shape j).
  - intros j a b Ha. by rewrite dim_from_end_nil in Ha.
  - intros j. unfold broadcast_dim_at. rewrite dim_from_end_nil.
    by destruct (dim_from_end shape j).
Qed.

Lemma GetBidirectionalBroadcastShape_identities_witness :
  GetBidirectionalBroadcastShape [2; 3]%Z [2; 3]%Z [9]%Z = Some (true, [2; 3]%Z)
  ∧ GetBidirectionalBroadcastShape [2; 3]%Z [] [9]%Z = Some (true, [2; 3]%Z)
  ∧ GetBidirectionalBroadcastShape [] [2; 3]%Z [9]%Z = Some (true, [2; 3]%Z).
Proof.
  apply (GetBidirectionalBroadcastShape_identities [2; 3]%Z [9]%Z). reflexivity.
Defined.

(** X15.  Broadcasting a shape whose dimensions are all at least 1 with a
    shape of ones that is not longer, in either order, returns the shape.
    The bound is needed: a dimension 0 against 1 gives 1. *)
Theorem GetBidirectionalBroadcastShape_ones :
  (∀ (shape output_shape : list Z) (k : nat),
      (vector_size shape < 2 ^ 64)%Z →
      Forall (λ d, (1 ≤ d)%Z) shape →
      k ≤ length shape →
      GetBidirectionalBroadcastShape shape (replicate k 1%Z) output_shape
      = Some (true, shape)
      ∧ GetBidirectionalBroadcastShape (replicate k 1%Z) shape output_shape
        = Some (true, shape))
  ∧ GetBidirectionalBroadcastShape [0%Z] [1%Z] [] = Some (true, [1%Z]).
Proof.
  split; [|reflexivity]. intros shape output_shape k Hfits Hpos Hk.
  assert (vector_size (replicate k 1%Z) < 2 ^ 64)%Z as Hones.
  { unfold vector_size in *. rewrite length_replicate. lia. }
  split; apply GetBidirectionalBroadcastShape_success; try assumption.
  - intros j a b _. rewrite dim_from_end_replicate. case_decide; [|done].
    intros [= <-]. right; right. done.
  - intros j. unfold broadcast_dim_at. rewrite dim_from_end_replicate.
    destruct (dim_from_end shape j) as [a|] eqn:Ha.
    + pose proof (dim_from_end_Forall _ _ _ _ Hpos Ha) as Hge. simpl in Hge.
      case_decide; [|done]. f_equal. lia.
    + case_decide; [|done].
      pose proof (dim_from_end_is_Some shape j) as [? Hsome]; [lia|].
      congruence.
  - intros j a b. rewrite dim_from_end_replicate. case_decide; [|done].
    intros [= <-] _. right; left. done.
  - intros j. unfold broadcast_dim_at. rewrite dim_from_end_replicate.
    destruct (dim_from_end shape j) as [a|] eqn:Ha.
    + pose proof (dim_from_end_Forall _ _ _ _ Hpos Ha) as Hge. simpl in Hge.
      case_decide; [|done]. f_equal. lia.
    + case_decide; [|done].
      pose proof (dim_from_end_is_Some shape j) as [? Hsome]; [lia|].
      congruence.
Qed.

Lemma GetBidirectionalBroadcastShape_ones_witness :
  GetBidirectionalBroadcastShape [2; 3]%Z (replicate 1 1%Z) [9]%Z
  = Some (true, [2; 3]%Z)
  ∧ GetBidirectionalBroadcastShape (replicate 1 1%Z) [2; 3]%Z [9]%Z
    = Some (true, [2; 3]%Z).
Proof.
  apply (proj1 GetBidirectionalBroadcastShape_ones [2; 3]%Z [9]%Z 1).
  - reflexivity.
  - repeat (constructor; [lia|]). constructor.
  - simpl. lia.
Defined.

(** X16.  The returned flag does not depend on what the output vector
    held before the call, and on success neither does the output. *)
Theorem GetBidirectionalBroadcastShape_output_independent
    (shape_a shape_b output_shape1 output_shape2 : list Z) :
  (vector_size shape_a < 2 ^ 64)%Z → (vector_size shape_b < 2 ^ 64)%Z →
  ∃ ok output_shape1' output_shape2',
    GetBidirectionalBroadcastShape shape_a shape_b output_shape1
    = Some (ok, output_shape1')
    ∧ GetBidirectionalBroadcastShape shape_a shape_b output_shape2
      = Some (ok, output_shape2')
    ∧ (ok = true → output_shape1' = output_shape2').
Proof.
  intros Ha Hb.
  destruct (GetBidirectionalBroadcastShape_spec shape_a shape_b Ha Hb output_shape1)
    as ([|] & out1 & Hrun1 & _ & Hres1).
  - exists true, out1, out1. split; [done|]. split; [|done].
    apply GetBidirectionalBroadcastShape_success; try assumption;
      intros j; apply Hres1.
  - destruct (GetBidirectionalBroadcastShape_spec shape_a shape_b Ha Hb output_shape2)
      as ([|] & out2 & Hrun2 & _ & Hres2).
    + destruct Hres1 as (bad & _ & Hnot & _). destruct Hnot. apply Hres2.
    + by exists false, out1, out2.
Qed.

Lemma GetBidirectionalBroadcastShape_output_independent_witness :
  ∃ ok output_shape1' output_shape2',
    GetBidirectionalBroadcastShape [3; 1]%Z [2; 1; 5]%Z [] = Some (ok, output_shape1')
    ∧ GetBidirectionalBroadcastShape [3; 1]%Z [2; 1; 5]%Z [9; 9; 9; 9]%Z
      = Some (ok, output_shape2')
    ∧ (ok = true → output_shape1' = output_shape2').
Proof.
  apply (GetBidirectionalBroadcastShape_output_independent
           [3; 1]%Z [2; 1; 5]%Z [] [9; 9; 9; 9]%Z); reflexivity.
Defined.

(** Offset by offset, the two groupings of three shapes agree when every
    dimension is at least 1. *)
Lemma broadcast_assoc_at (shape_a shape_b shape_c : list Z) (j : nat) :
  (∀ d, dim_from_end shape_a j = Some d → (1 ≤ d)%Z) →
  (∀ d, dim_from_end shape_b j = Some d → (1 ≤ d)%Z) →
  (∀ d, dim_from_end shape_c j = Some d → (1 ≤ d)%Z) →
  (∀ shape_ab,
      dim_from_end shape_ab j = broadcast_dim_at shape_a shape_b j →
      compatible_at shape_a shape_b j → compatible_at shape_ab shape_c j →
      compatible_at shape_b shape_c j
      ∧ ∀ shape_bc,
          dim_from_end shape_bc j = broadcast_dim_at shape_b shape_c j →
          compatible_at shape_a shape_bc j
          ∧ broadcast_dim_at shape_ab shape_c j = broadcast_dim_at shape_a shape_bc j)
  ∧ (∀ shape_bc,
      dim_from_end shape_bc j = broadcast_dim_at shape_b shape_c j →
      compatible_at shape_b shape_c j → compatible_at shape_a shape_bc j →
      compatible_at shape_a shape_b j
      ∧ ∀ shape_ab,
          dim_from_end shape_ab j = broadcast_dim_at shape_a shape_b j →
          compatible_at shape_ab shape_c j
          ∧ broadcast_dim_at shape_ab shape_c j = broadcast_dim_at shape_a shape_bc j).
Proof.
  unfold compatible_at, broadcast_dim_at, dims_compatible.
  intros Ha Hb Hc.
  destruct (dim_from_end shape_a j) as [a|];
    destruct (dim_from_end shape_b j) as [b|];
    destruct (dim_from_end shape_c j) as [c|];
    try specialize (Ha _ eq_refl); try specialize (Hb _ eq_refl);
    try specialize (Hc _ eq_refl);
    (split;
     [ intros shape_ab -> Hab Habc; split;
       [ intros ? ? ? ?; simplify_eq;
         try specialize (Hab _ _ eq_refl eq_refl);
         try specialize (Habc _ _ eq_refl eq_refl); lia
       | intros shape_bc ->; split;
         [ intros ? ? ? ?; simplify_eq;
           try specialize (Hab _ _ eq_refl eq_refl);
           try specialize (Habc _ _ eq_refl eq_refl); lia
         | try specialize (Hab _ _ eq_refl eq_refl);
           try specialize (Habc _ _ eq_refl eq_refl);
           try done; f_equal; lia ] ]
     | intros shape_bc -> Hbc Habc; split;
       [ intros ? ? ? ?; simplify_eq;
         try specialize (Hbc _ _ eq_refl eq_refl);
         try specialize (Habc _ _ eq_refl eq_refl); lia
       | intros shape_ab ->; split;
         [ intros ? ? ? ?; simplify_eq;
           try specialize (Hbc _ _ eq_refl eq_refl);
           try specialize (Habc _ _ eq_refl eq_refl); lia
         | try specialize (Hbc _ _ eq_refl eq_refl);
           try specialize (Habc _ _ eq_refl eq_refl);
           try done; f_equal; lia ] ] ]).
Qed.

(** X17.  For shapes whose dimensions are all at least 1, broadcasting is
    associative: [(a, b)] then [c] succeeds with a result exactly when
    [(b, c)] then [a] does with the same result.  With a dimension 0 it is
    not: [[0]], [[1]], [[5]] succeed grouped to the left and fail grouped
    to the right. *)
Theorem GetBidirectionalBroadcastShape_associative :
  (∀ (shape_a shape_b shape_c out1 out2 out3 out4 result : list Z),
      (vector_size shape_a < 2 ^ 64)%Z → (vector_size shape_b < 2 ^ 64)%Z →
      (vector_size shape_c < 2 ^ 64)%Z →
      Forall (λ d, (1 ≤ d)%Z) shape_a → Forall (λ d, (1 ≤ d)%Z) shape_b →
      Forall (λ d, (1 ≤ d)%Z) shape_c →
      (∃ shape_ab,
          GetBidirectionalBroadcastShape shape_a shape_b out1 = Some (true, shape_ab)
          ∧ GetBidirectionalBroadcastShape shape_ab shape_c out2 = Some (true, result))
      ↔ (∃ shape_bc,
          GetBidirectionalBroadcastShape shape_b shape_c out3 = Some (true, shape_bc)
          ∧ GetBidirectionalBroadcastShape shape_a shape_bc out4 = Some (true, result)))
  ∧ ((∃ shape_ab,
         GetBidirectionalBroadcastShape [0%Z] [1%Z] [] = Some (true, shape_ab)
         ∧ GetBidirectionalBroadcastShape shape_ab [5%Z] [] = Some (true, [5%Z]))
     ∧ ¬ (∃ shape_bc result,
            GetBidirectionalBroadcastShape [1%Z] [5%Z] [] = Some (true, shape_bc)
            ∧ GetBidirectionalBroadcastShape [0%Z] shape_bc [] = Some (true, result))).
Proof.
  split; cycle 1.
  { split; [by exists [1%Z]|]. intros (shape_bc & result & Hbc & Habc).
    vm_compute in Hbc. injection Hbc as <-. vm_compute in Habc. discriminate. }
  intros shape_a shape_b shape_c out1 out2 out3 out4 result Ha Hb Hc Hpa Hpb Hpc.
  assert (Hat : ∀ j, _) by
    (intros j; exact (broadcast_assoc_at shape_a shape_b shape_c j
                        (λ d, dim_from_end_Forall _ _ _ _ Hpa)
                        (λ d, dim_from_end_Forall _ _ _ _ Hpb)
                        (λ d, dim_from_end_Forall _ _ _ _ Hpc))).
  split.
  - intros (shape_ab & Hab & Habc).
    apply GetBidirectionalBroadcastShape_success_inv in Hab
      as (Hfits & Hcab & Hdab); [|done..].
    apply GetBidirectionalBroadcastShape_success_inv in Habc
      as (_ & Hcabc & Hdabc); [|done..].
    destruct (GetBidirectionalBroadcastShape_spec shape_b shape_c Hb Hc out3)
      as ([|] & shape_bc & Hrun & Hlen & Hres).
    + exists shape_bc. split; [done|].
      assert (vector_size shape_bc < 2 ^ 64)%Z
        by (unfold vector_size in *; lia).
      apply GetBidirectionalBroadcastShape_success; try assumption.
      * intros j. destruct (Hat j) as [Hfwd _].
        destruct (Hfwd shape_ab (Hdab j) (Hcab j) (Hcabc j)) as [_ Hbc].
        apply (Hbc shape_bc). apply Hres.
      * intros j. rewrite Hdabc. destruct (Hat j) as [Hfwd _].
        destruct (Hfwd shape_ab (Hdab j) (Hcab j) (Hcabc j)) as [_ Hbc].
        apply (Hbc shape_bc). apply Hres.
    + destruct Hres as (bad & _ & Hnot & _). destruct Hnot.
      destruct (Hat bad) as [Hfwd _].
      apply (Hfwd shape_ab (Hdab bad) (Hcab bad) (Hcabc bad)).
  - intros (shape_bc & Hbc & Habc).
    apply GetBidirectionalBroadcastShape_success_inv in Hbc
      as (Hfits & Hcbc & Hdbc); [|done..].
    apply GetBidirectionalBroadcastShape_success_inv in Habc
      as (_ & Hcabc & Hdabc); [|done..].
    destruct (GetBidirectionalBroadcastShape_spec shape_a shape_b Ha Hb out1)
      as ([|] & shape_ab & Hrun & Hlen & Hres).
    + exists shape_ab. split; [done|].
      assert (vector_size shape_ab < 2 ^ 64)%Z
        by (unfold vector_size in *; lia).
      apply GetBidirectionalBroadcastShape_success; try assumption.
      * intros j. destruct (Hat j) as [_ Hbwd].
        destruct (Hbwd shape_bc (Hdbc j) (Hcbc j) (Hcabc j)) as [_ Hab].
        apply (Hab shape_ab). apply Hres.
      * intros j. rewrite Hdabc. destruct (Hat j) as [_ Hbwd].
        destruct (Hbwd shape_bc (Hdbc j) (Hcbc j) (Hcabc j)) as [_ Hab].
        symmetry. apply (Hab shape_ab). apply Hres.
    + destruct Hres as (bad & _ & Hnot & _). destruct Hnot.
      destruct (Hat bad) as [_ Hbwd].
      apply (Hbwd shape_bc (Hdbc bad) (Hcbc bad) (Hcabc bad)).
Qed.

Lemma GetBidirectionalBroadcastShape_associative_witness :
  (∃ shape_ab,
      GetBidirectionalBroadcastShape [2; 1]%Z [3]%Z [] = Some (true, shape_ab)
      ∧ GetBidirectionalBroadcastShape shape_ab [4; 1; 3]%Z []
        = Some (true, [4; 2; 3]%Z))
  ↔ (∃ shape_bc,
      GetBidirectionalBroadcastShape [3]%Z [4; 1; 3]%Z [] = Some (true, shape_bc)
      ∧ GetBidirectionalBroadcastShape [2; 1]%Z shape_bc []
        = Some (true, [4; 2; 3]%Z)).
Proof.
  apply (proj1 GetBidirectionalBroadcastShape_associative
           [2; 1]%Z [3]%Z [4; 1; 3]%Z [] [] [] [] [4; 2; 3]%Z);
    try reflexivity; repeat (constructor; [lia|]); constructor.
Defined.

Local Open Scope string_scope.
Local Open Scope list_scope.

(** ** GraphPartitioner, continued *)

Lemma finish_scan_app groups later group :
  finish_scan (groups ++ later, group) = groups ++ finish_scan (later, group).
Proof. unfold finish_scan. simpl. case_bool_decide; [by rewrite (assoc_L (++))|done]. Qed.

Lemma sample_inputs_eligible input :
  input ∈ GraphViewer_GetInputs sample_partition_viewer →
  IsInputSupported input "graph" = true.
Proof. intros Hin. apply list_elem_of_singleton in Hin as ->. reflexivity. Qed.

Section PartitionerFurther.
Variable CheckSingleOp : string → emscripten_val → WebnnDeviceType → bool.
Variable GetOpBuilders : gmap string OpBuilder.
Variable graph_viewer : GraphViewer.
Variable wnn_builder : emscripten_val.
Variable device_type : WebnnDeviceType.
Variable wnn_limits : emscripten_val.

Abbreviation supported :=
  (is_supported CheckSingleOp GetOpBuilders graph_viewer wnn_builder device_type wnn_limits).
Abbreviation scan :=
  (scan_nodes CheckSingleOp GetOpBuilders graph_viewer wnn_builder device_type wnn_limits).
Abbreviation partition_of viewer :=
  (GetSupportedNodes CheckSingleOp GetOpBuilders viewer wnn_builder device_type wnn_limits).
Abbreviation eligible := (λ input, IsInputSupported input "graph").

Lemma eligible_forallb inputs :
  (∀ input, input ∈ inputs → IsInputSupported input "graph" = true) → forallb eligible inputs = true.
Proof.
  intros Hall. apply forallb_forall. intros input Hin.
  by apply Hall, list_elem_of_In.
Qed.

(** The finished groups only grow at the end. *)
Lemma value_scan_groups l groups group :
  value (scan l groups group)
  = (groups ++ (value (scan l [] group)).1, (value (scan l [] group)).2).
Proof.
  revert groups group. induction l as [|x l IH]; intros groups group.
  - simpl. by rewrite app_nil_r.
  - rewrite !(value_scan_cons CheckSingleOp GetOpBuilders graph_viewer).
    destruct (supported x); [apply IH|].
    case_bool_decide; [|apply IH].
    rewrite (IH (groups ++ [group])), (IH ([] ++ [group])).
    by rewrite <- (assoc_L (++)).
Qed.

Lemma value_scan_all_supported l groups group :
  (∀ node_idx, node_idx ∈ l → supported node_idx = true) →
  value (scan l groups group) = (groups, group ++ l).
Proof.
  revert group. induction l as [|x l IH]; intros group Hall.
  - simpl. by rewrite app_nil_r.
  - rewrite (value_scan_cons CheckSingleOp GetOpBuilders graph_viewer).
    rewrite Hall by apply list_elem_of_here.
    rewrite IH by (intros; apply Hall; by apply list_elem_of_further).
    by rewrite <- (assoc_L (++)).
Qed.

Lemma scan_nodes_with_nodes node_indices l groups group :
  scan_nodes CheckSingleOp GetOpBuilders
    (GraphViewer_with_nodes graph_viewer node_indices)
    wnn_builder device_type wnn_limits l groups group
  = scan l groups group.
Proof.
  revert groups group. induction l as [|x l IH]; intros groups group; [done|].
  cbn [scan_nodes]. cbv zeta.
  change (node_supported CheckSingleOp GetOpBuilders
            (GraphViewer_with_nodes graph_viewer node_indices)
            wnn_builder device_type wnn_limits
            (GraphViewer_GetNode (GraphViewer_with_nodes graph_viewer node_indices) x))
    with (node_supported CheckSingleOp GetOpBuilders graph_viewer
            wnn_builder device_type wnn_limits (GraphViewer_GetNode graph_viewer x)).
  unfold mbind, M_bind.
  destruct (value (node_supported _ _ _ _ _ _ _)); [by rewrite IH|].
  case_bool_decide; by rewrite IH.
Qed.

Lemma value_partition_of_nodes node_indices :
  value (partition_of (GraphViewer_with_nodes graph_viewer node_indices))
  = if forallb eligible (GraphViewer_GetInputs graph_viewer)
    then finish_scan (value (scan node_indices [] []))
    else [].
Proof.
  rewrite value_GetSupportedNodes. simpl.
  by rewrite scan_nodes_with_nodes.
Qed.

(** X1.  When every graph-level input is eligible, the groups taken
    together are exactly the supported nodes, in their topological order:
    no node is reordered, repeated or dropped, and a node index is in some
    group exactly when it is in the topological order and supported. *)
Theorem GetSupportedNodes_concat :
  (∀ input, input ∈ GraphViewer_GetInputs graph_viewer → IsInputSupported input "graph" = true) →
  concat (value (partition_of graph_viewer))
  = List.filter supported (GraphViewer_GetNodesInTopologicalOrder graph_viewer)
  ∧ ∀ node_idx,
      (∃ group, group ∈ value (partition_of graph_viewer) ∧ node_idx ∈ group)
      ↔ node_idx ∈ GraphViewer_GetNodesInTopologicalOrder graph_viewer
        ∧ supported node_idx = true.
Proof.
  intros Hinputs.
  assert (concat (value (partition_of graph_viewer))
          = List.filter supported (GraphViewer_GetNodesInTopologicalOrder graph_viewer))
    as Hconcat.
  { rewrite value_GetSupportedNodes, eligible_forallb by done.
    by rewrite concat_finish_scan, value_scan_state. }
  split; [done|]. intros node_idx.
  split.
  - intros (group & Hgroup & Hidx).
    assert (In node_idx (concat (value (partition_of graph_viewer)))) as Hin.
    { apply in_concat. exists group. split; by apply list_elem_of_In. }
    rewrite Hconcat in Hin. apply filter_In in Hin as [Hin Hsup].
    split; [by apply list_elem_of_In|done].
  - intros [Hin Hsup].
    assert (In node_idx (concat (value (partition_of graph_viewer)))) as Hcat.
    { rewrite Hconcat. apply filter_In. split; [by apply list_elem_of_In|done]. }
    apply in_concat in Hcat as (group & Hgroup & Hidx).
    exists group. split; by apply list_elem_of_In.
Qed.

(** X2.  When every graph-level input is eligible: if every node is
    supported and there is at least one node, the result is the single
    group of all nodes in topological order; if no node is supported, the
    result has no group. *)
Theorem GetSupportedNodes_all_or_none :
  (∀ input, input ∈ GraphViewer_GetInputs graph_viewer → IsInputSupported input "graph" = true) →
  let node_indices := GraphViewer_GetNodesInTopologicalOrder graph_viewer in
  ((∀ node_idx, node_idx ∈ node_indices → supported node_idx = true) →
   node_indices ≠ [] →
   value (partition_of graph_viewer) = [node_indices])
  ∧ ((∀ node_idx, node_idx ∈ node_indices → supported node_idx = false) →
     value (partition_of graph_viewer) = []).
Proof.
  intros Hinputs node_indices.
  rewrite value_GetSupportedNodes, eligible_forallb by done. split.
  - intros Hall Hne. fold node_indices. rewrite value_scan_all_supported by done.
    unfold finish_scan. simpl. by rewrite bool_decide_true.
  - intros Hnone. fold node_indices.
    destruct (finish_scan_spec CheckSingleOp GetOpBuilders graph_viewer wnn_builder
                device_type wnn_limits node_indices [] [])
      as (tail & later & -> & Hfilter & Hne).
    assert (List.filter supported node_indices = []) as Hempty.
    { clear -Hnone. induction node_indices as [|x l IH]; [done|]. simpl.
      rewrite Hnone by apply list_elem_of_here.
      apply IH. intros. apply Hnone. by apply list_elem_of_further. }
    rewrite Hempty in Hfilter. apply app_eq_nil in Hfilter as [-> Hlater].
    destruct later as [|g later]; [done|].
    apply Forall_cons in Hne as [Hg _]. simpl in Hlater.
    by apply app_eq_nil in Hlater as [-> _].
Qed.

(** X3.  Partitioning splits at an unsupported node: scanning
    [before ++ u :: after] with [u] unsupported gives the groups of
    [before] followed by the groups of [after]. *)
Theorem GetSupportedNodes_split_at_unsupported before u after :
  supported u = false →
  value (partition_of (GraphViewer_with_nodes graph_viewer (before ++ u :: after)))
  = value (partition_of (GraphViewer_with_nodes graph_viewer before))
    ++ value (partition_of (GraphViewer_with_nodes graph_viewer after)).
Proof.
  intros Hu. rewrite !value_partition_of_nodes.
  destruct (forallb _ _); [|done].
  rewrite (value_scan_app CheckSingleOp GetOpBuilders graph_viewer),
    (value_scan_cons CheckSingleOp GetOpBuilders graph_viewer), Hu.
  destruct (value (scan before [] [])) as [groups group]. simpl.
  destruct group as [|x group]; simpl.
  - rewrite value_scan_groups, finish_scan_app.
    unfold finish_scan at 2. simpl. by destruct (value (scan after [] [])).
  - rewrite value_scan_groups, finish_scan_app.
    unfold finish_scan at 2. simpl. by destruct (value (scan after [] [])).
Qed.

Lemma calls_inputs_supported_all inputs :
  (∀ input, input ∈ inputs → IsInputSupported input "graph" = true) →
  calls (inputs_supported inputs) = Call_IsInputSupported <$> inputs.
Proof.
  induction inputs as [|input rest IH]; intros Hall; [done|].
  cbn [inputs_supported]. rewrite calls_bind. simpl.
  rewrite Hall by apply list_elem_of_here. f_equal.
  apply IH. intros. apply Hall. by apply list_elem_of_further.
Qed.

Lemma calls_inputs_supported_stop before bad after :
  (∀ input, input ∈ before → IsInputSupported input "graph" = true) →
  IsInputSupported bad "graph" = false →
  calls (inputs_supported (before ++ bad :: after))
  = Call_IsInputSupported <$> (before ++ [bad]).
Proof.
  intros Hbefore Hbad. induction before as [|input rest IH].
  - cbn [inputs_supported app]. rewrite calls_bind. simpl. by rewrite Hbad.
  - rewrite <- !app_comm_cons. cbn [inputs_supported]. rewrite calls_bind. simpl.
    rewrite Hbefore by apply list_elem_of_here. f_equal.
    apply IH. intros. apply Hbefore. by apply list_elem_of_further.
Qed.

Lemma calls_GetSupportedNodes_exact :
  calls (partition_of graph_viewer)
  = calls (inputs_supported (GraphViewer_GetInputs graph_viewer))
    ++ if forallb eligible (GraphViewer_GetInputs graph_viewer)
       then flat_map (node_calls CheckSingleOp graph_viewer wnn_builder device_type)
              (GraphViewer_GetNodesInTopologicalOrder graph_viewer)
       else [].
Proof.
  unfold GetSupportedNodes. cbv zeta.
  rewrite calls_bind, value_inputs_supported. f_equal.
  destruct (forallb _ _); [|done].
  rewrite calls_bind, calls_scan.
  destruct (value (scan _ [] [])) as [groups group]. simpl.
  case_bool_decide; simpl; rewrite app_nil_r; apply flat_map_ext;
    intros node_idx; apply calls_node_supported.
Qed.

(** X4.  When every graph-level input is eligible, [GetSupportedNodes]
    makes one pass: it checks each input once, in order, then for each node
    of the topological order, once and in order, the platform check,
    followed by the instance check exactly when the platform check
    passed. *)
Theorem GetSupportedNodes_single_pass :
  (∀ input, input ∈ GraphViewer_GetInputs graph_viewer →
            IsInputSupported input "graph" = true) →
  calls (partition_of graph_viewer)
  = (Call_IsInputSupported <$> GraphViewer_GetInputs graph_viewer)
    ++ flat_map (node_calls CheckSingleOp graph_viewer wnn_builder device_type)
         (GraphViewer_GetNodesInTopologicalOrder graph_viewer).
Proof.
  intros Hinputs.
  by rewrite calls_GetSupportedNodes_exact, eligible_forallb,
    calls_inputs_supported_all.
Qed.

(** X5.  [GetSupportedNodes] stops at the first ineligible graph input:
    the inputs before it and the input itself are checked, the inputs
    after it and the nodes are not. *)
Theorem GetSupportedNodes_stops_at_first_bad_input before bad after :
  GraphViewer_GetInputs graph_viewer = before ++ bad :: after →
  (∀ input, input ∈ before → IsInputSupported input "graph" = true) →
  IsInputSupported bad "graph" = false →
  calls (partition_of graph_viewer)
  = Call_IsInputSupported <$> (before ++ [bad]).
Proof.
  intros Hsplit Hbefore Hbad.
  rewrite calls_GetSupportedNodes_exact, Hsplit.
  rewrite calls_inputs_supported_stop by done.
  replace (forallb eligible (before ++ bad :: after)) with false;
    [by rewrite app_nil_r|].
  symmetry. apply forallb_false_iff. exists bad. split; [|done].
  apply elem_of_app. right. apply list_elem_of_here.
Qed.
End PartitionerFurther.

Lemma GetSupportedNodes_concat_witness :
  concat (value (GetSupportedNodes sample_CheckSingleOp sample_builders
                   sample_partition_viewer val_undefined CPU val_undefined))
  = [0%N; 1%N; 3%N].
Proof.
  destruct (GetSupportedNodes_concat sample_CheckSingleOp sample_builders
              sample_partition_viewer val_undefined CPU val_undefined
              sample_inputs_eligible) as [Hconcat _].
  rewrite Hconcat. reflexivity.
Defined.

Lemma GetSupportedNodes_all_or_none_witness :
  value (GetSupportedNodes sample_CheckSingleOp sample_builders
           (sample_viewer top_graph [static_input] [0%N; 1%N; 3%N])
           val_undefined CPU val_undefined)
  = [[0%N; 1%N; 3%N]].
Proof.
  destruct (GetSupportedNodes_all_or_none sample_CheckSingleOp sample_builders
              (sample_viewer top_graph [static_input] [0%N; 1%N; 3%N])
              val_undefined CPU val_undefined sample_inputs_eligible) as [Hall _].
  apply Hall; [|discriminate].
  intros node_idx Hin. simpl in Hin. rewrite !elem_of_cons, elem_of_nil in Hin.
  destruct Hin as [->|[->|[->|[]]]]; reflexivity.
Defined.

Lemma GetSupportedNodes_split_at_unsupported_witness :
  value (GetSupportedNodes sample_CheckSingleOp sample_builders
           (GraphViewer_with_nodes sample_partition_viewer ([0%N; 1%N] ++ 2%N :: [3%N]))
           val_undefined CPU val_undefined)
  = value (GetSupportedNodes sample_CheckSingleOp sample_builders
             (GraphViewer_with_nodes sample_partition_viewer [0%N; 1%N])
             val_undefined CPU val_undefined)
    ++ value (GetSupportedNodes sample_CheckSingleOp sample_builders
                (GraphViewer_with_nodes sample_partition_viewer [3%N])
                val_undefined CPU val_undefined).
Proof.
  apply (GetSupportedNodes_split_at_unsupported sample_CheckSingleOp sample_builders
           sample_partition_viewer val_undefined CPU val_undefined
           [0%N; 1%N] 2%N [3%N]).
  reflexivity.
Defined.

Lemma GetSupportedNodes_single_pass_witness :
  calls (GetSupportedNodes sample_CheckSingleOp sample_builders
           sample_partition_viewer val_undefined CPU val_undefined)
  = [Call_IsInputSupported static_input;
     Call_CheckSingleOp "Reshape"; Call_IsNodeSupported (sample_node 0%N);
     Call_CheckSingleOp "Reshape"; Call_IsNodeSupported (sample_node 1%N);
     Call_CheckSingleOp "Loop";
     Call_CheckSingleOp "Reshape"; Call_IsNodeSupported (sample_node 3%N)].
Proof.
  rewrite (GetSupportedNodes_single_pass sample_CheckSingleOp sample_builders
             sample_partition_viewer val_undefined CPU val_undefined
             sample_inputs_eligible).
  reflexivity.
Defined.

Lemma GetSupportedNodes_stops_at_first_bad_input_witness :
  calls (GetSupportedNodes sample_CheckSingleOp sample_builders
           (sample_viewer top_graph [static_input; shapeless_input; dynamic_input]
              [0%N; 1%N])
           val_undefined CPU val_undefined)
  = [Call_IsInputSupported static_input; Call_IsInputSupported shapeless_input].
Proof.
  apply (GetSupportedNodes_stops_at_first_bad_input sample_CheckSingleOp
           sample_builders
           (sample_viewer top_graph [static_input; shapeless_input; dynamic_input]
              [0%N; 1%N])
           val_undefined CPU val_undefined
           [static_input] shapeless_input [dynamic_input]).
  - reflexivity.
  - intros input Hin. apply list_elem_of_singleton in Hin as ->. reflexivity.
  - reflexivity.
Defined.

(** ** InitializerCollector, continued *)

Lemma first_binding_is_Some name (scopes : list InitializedTensorSet) :
  is_Some (first_binding name scopes)
  ↔ ∃ scope, scope ∈ scopes ∧ is_Some (scope !! name).
Proof.
  induction scopes as [|scope outer IH]; simpl.
  - split; [by intros [? ?]|]. by intros (? & ?%elem_of_nil & _).
  - destruct (scope !! name) as [tensor|] eqn:Hscope.
    + split; [|by eauto]. intros _. exists scope.
      split; [apply list_elem_of_here|by rewrite Hscope].
    + rewrite IH. split.
      * intros (s & Hin & Hs). exists s. split; [by apply list_elem_of_further|done].
      * intros (s & [->|Hin]%elem_of_cons & Hs).
        -- rewrite Hscope in Hs. by destruct Hs.
        -- by exists s.
Qed.

(** X6.  For a subgraph, the collected set extends the initializers of
    the graph itself (same names, same tensors), and a name is collected
    exactly when the graph or one of its ancestors declares it. *)
Theorem CollectAllInitializedTensors_visible (graph_viewer : GraphViewer) :
  GraphViewer_IsSubgraph graph_viewer = true →
  GraphViewer_GetAllInitializedTensors graph_viewer
    ⊆ CollectAllInitializedTensors graph_viewer
  ∧ ∀ name,
      is_Some (CollectAllInitializedTensors graph_viewer !! name)
      ↔ ∃ graph, graph ∈ scope_chain (GraphViewer_GetGraph graph_viewer)
                 ∧ is_Some (Graph_GetAllInitializedTensors graph !! name).
Proof.
  intros Hsub. unfold CollectAllInitializedTensors. rewrite Hsub. cbv zeta.
  rewrite collect_upwards_union, (left_id_L ∅ (∪)). split.
  - unfold GraphViewer_GetAllInitializedTensors.
    destruct (GraphViewer_GetGraph graph_viewer) as [parent inits]. simpl.
    apply map_union_subseteq_l.
  - intros name. rewrite lookup_union_list_first, first_binding_is_Some. split.
    + intros (scope & (graph & -> & Hin)%list_elem_of_fmap & Hs). by exists graph.
    + intros (graph & Hin & Hs). exists (Graph_GetAllInitializedTensors graph).
      split; [|done]. apply list_elem_of_fmap. by exists graph.
Qed.

Lemma CollectAllInitializedTensors_visible_witness :
  GraphViewer_GetAllInitializedTensors (sample_viewer sub_graph [] [])
    ⊆ CollectAllInitializedTensors (sample_viewer sub_graph [] []).
Proof.
  apply (CollectAllInitializedTensors_visible (sample_viewer sub_graph [] [])).
  reflexivity.
Defined.

(** ** ElementTypeCompat, continued *)

(** X7.  [IsSupportedDataType] depends on the allowed array only through
    its elements and is monotone in them: a type accepted with an array is
    accepted with every array that contains its tags. *)
Theorem IsSupportedDataType_monotone
    (onnx_to_webnn_data_type_map : gmap Z string) (onnx_data_type : Z)
    (webnn_supported_data_types more_data_types : list string) :
  (∀ tag, tag ∈ webnn_supported_data_types → tag ∈ more_data_types) →
  IsSupportedDataType onnx_to_webnn_data_type_map onnx_data_type
    webnn_supported_data_types = true →
  IsSupportedDataType onnx_to_webnn_data_type_map onnx_data_type
    more_data_types = true.
Proof.
  unfold IsSupportedDataType. intros Hsub.
  destruct (onnx_to_webnn_data_type_map !! onnx_data_type) as [tag|]; [|done].
  rewrite !includes_true_iff. apply Hsub.
Qed.

Lemma IsSupportedDataType_monotone_witness :
  IsSupportedDataType sample_data_type_map TensorProto_DataType_FLOAT
    ["uint8"; "float32"] = true.
Proof.
  apply (IsSupportedDataType_monotone sample_data_type_map
           TensorProto_DataType_FLOAT ["float32"] ["uint8"; "float32"]).
  - intros tag Hin. apply list_elem_of_singleton in Hin as ->.
    apply list_elem_of_further, list_elem_of_here.
  - reflexivity.
Defined.

Ltac unfold_data_types :=
  unfold TensorProto_DataType_BOOL, TensorProto_DataType_UINT8,
    TensorProto_DataType_INT8, TensorProto_DataType_FLOAT16,
    TensorProto_DataType_FLOAT, TensorProto_DataType_INT32,
    TensorProto_DataType_INT64, TensorProto_DataType_UINT32,
    TensorProto_DataType_UINT64 in *.

(** The nine source element types [SetWebnnDataType] knows. *)
Lemma SetWebnnDataType_cases (desc : gmap string emscripten_val) (data_type : Z) :
  (∃ tag,
      SetWebnnDataType desc data_type = (<["dataType" := val_string tag]> desc, true)
      ∧ ((data_type = TensorProto_DataType_BOOL ∧ tag = "uint8")
         ∨ (data_type = TensorProto_DataType_UINT8 ∧ tag = "uint8")
         ∨ (data_type = TensorProto_DataType_INT8 ∧ tag = "int8")
         ∨ (data_type = TensorProto_DataType_FLOAT16 ∧ tag = "float16")
         ∨ (data_type = TensorProto_DataType_FLOAT ∧ tag = "float32")
         ∨ (data_type = TensorProto_DataType_INT32 ∧ tag = "int32")
         ∨ (data_type = TensorProto_DataType_INT64 ∧ tag = "int64")
         ∨ (data_type = TensorProto_DataType_UINT32 ∧ tag = "uint32")
         ∨ (data_type = TensorProto_DataType_UINT64 ∧ tag = "uint64")))
  ∨ (SetWebnnDataType desc data_type = (desc, false)
     ∧ data_type ∉ [TensorProto_DataType_BOOL; TensorProto_DataType_UINT8;
                    TensorProto_DataType_INT8; TensorProto_DataType_FLOAT16;
                    TensorProto_DataType_FLOAT; TensorProto_DataType_INT32;
                    TensorProto_DataType_INT64; TensorProto_DataType_UINT32;
                    TensorProto_DataType_UINT64]).
Proof.
  unfold SetWebnnDataType.
  destruct (decide (data_type = TensorProto_DataType_BOOL)) as [->|?];
    [left; eexists; split; [reflexivity|tauto]|].
  destruct (decide (data_type = TensorProto_DataType_UINT8)) as [->|?];
    [left; eexists; split; [reflexivity|tauto]|].
  destruct (decide (data_type = TensorProto_DataType_INT8)) as [->|?];
    [left; eexists; split; [reflexivity|tauto]|].
  destruct (decide (data_type = TensorProto_DataType_FLOAT16)) as [->|?];
    [left; eexists; split; [reflexivity|tauto]|].
  destruct (decide (data_type = TensorProto_DataType_FLOAT)) as [->|?];
    [left; eexists; split; [reflexivity|tauto]|].
  destruct (decide (data_type = TensorProto_DataType_INT32)) as [->|?];
    [left; eexists; split; [reflexivity|tauto]|].
  destruct (decide (data_type = TensorProto_DataType_INT64)) as [->|?];
    [left; eexists; split; [reflexivity|tauto]|].
  destruct (decide (data_type = TensorProto_DataType_UINT32)) as [->|?];
    [left; eexists; split; [reflexivity|tauto]|].
  destruct (decide (data_type = TensorProto_DataType_UINT64)) as [->|?];
    [left; eexists; split; [reflexivity|tauto]|].
  right. rewrite !bool_decide_false by done. split; [done|].
  rewrite !elem_of_cons, elem_of_nil. tauto.
Qed.

(** X8.  [SetWebnnDataType] succeeds exactly on the nine element types of
    its [switch].  On failure the descriptor is unchanged; in every case
    all properties other than ["dataType"] are unchanged; and a successful
    call overwrites what an earlier call wrote. *)
Theorem SetWebnnDataType_frame (desc : gmap string emscripten_val) (data_type : Z) :
  (snd (SetWebnnDataType desc data_type) = true
   ↔ data_type ∈ [TensorProto_DataType_BOOL; TensorProto_DataType_UINT8;
                  TensorProto_DataType_INT8; TensorProto_DataType_FLOAT16;
                  TensorProto_DataType_FLOAT; TensorProto_DataType_INT32;
                  TensorProto_DataType_INT64; TensorProto_DataType_UINT32;
                  TensorProto_DataType_UINT64])
  ∧ (snd (SetWebnnDataType desc data_type) = false →
     fst (SetWebnnDataType desc data_type) = desc)
  ∧ (∀ key, key ≠ "dataType" →
       fst (SetWebnnDataType desc data_type) !! key = desc !! key)
  ∧ (∀ data_type', snd (SetWebnnDataType desc data_type') = true →
       SetWebnnDataType (fst (SetWebnnDataType desc data_type)) data_type'
       = SetWebnnDataType desc data_type').
Proof.
  destruct (SetWebnnDataType_cases desc data_type)
    as [(tag & Hset & Hcase)|[Hset Hnot]]; rewrite Hset; simpl.
  - split; [|split; [done|split]].
    + split; [intros _|done]. rewrite !elem_of_cons. tauto.
    + intros key Hkey. by rewrite lookup_insert_ne.
    + intros data_type' Hok.
      destruct (SetWebnnDataType_cases desc data_type')
        as [(tag' & Hset' & Hcase')|[Hset' _]]; [|by rewrite Hset' in Hok].
      destruct (SetWebnnDataType_cases (<["dataType":=val_string tag]> desc) data_type')
        as [(tag'' & Hset'' & Hcase'')|[_ Hnot'']].
      * rewrite Hset'', Hset', insert_insert_eq.
        assert (tag'' = tag') as ->; [|done].
        unfold_data_types. intuition (simplify_eq; auto).
      * destruct Hnot''. rewrite !elem_of_cons. tauto.
  - split; [|done]. split; [done|]. intros Hin. done.
Qed.

Lemma SetWebnnDataType_frame_witness :
  fst (SetWebnnDataType (<["shape" := val_array [val_number 2]]> ∅)
         TensorProto_DataType_FLOAT) !! "shape"
  = (<["shape" := val_array [val_number 2]]> ∅ : gmap string emscripten_val) !! "shape".
Proof.
  destruct (SetWebnnDataType_frame (<["shape" := val_array [val_number 2]]> ∅)
              TensorProto_DataType_FLOAT) as (_ & _ & Hframe & _).
  apply Hframe. discriminate.
Defined.

(** X9.  The boolean and the unsigned 8-bit type are the only two source
    types [SetWebnnDataType] gives the same tag: two accepted types with
    the same tag are equal or are these two. *)
Theorem SetWebnnDataType_only_collision
    (desc : gmap string emscripten_val) (data_type1 data_type2 : Z) :
  snd (SetWebnnDataType desc data_type1) = true →
  snd (SetWebnnDataType desc data_type2) = true →
  desc_dataType (fst (SetWebnnDataType desc data_type1))
  = desc_dataType (fst (SetWebnnDataType desc data_type2)) →
  data_type1 = data_type2
  ∨ (data_type1 = TensorProto_DataType_BOOL ∧ data_type2 = TensorProto_DataType_UINT8)
  ∨ (data_type1 = TensorProto_DataType_UINT8 ∧ data_type2 = TensorProto_DataType_BOOL).
Proof.
  destruct (SetWebnnDataType_cases desc data_type1)
    as [(tag1 & -> & Hcase1)|[-> _]]; [|done].
  destruct (SetWebnnDataType_cases desc data_type2)
    as [(tag2 & -> & Hcase2)|[-> _]]; [|done].
  unfold desc_dataType. simpl. rewrite !lookup_insert_eq. intros _ _ [= <-].
  unfold_data_types. intuition (simplify_eq; auto).
Qed.

Lemma SetWebnnDataType_only_collision_witness :
  TensorProto_DataType_BOOL = TensorProto_DataType_UINT8
  ∨ (TensorProto_DataType_BOOL = TensorProto_DataType_BOOL
     ∧ TensorProto_DataType_UINT8 = TensorProto_DataType_UINT8)
  ∨ (TensorProto_DataType_BOOL = TensorProto_DataType_UINT8
     ∧ TensorProto_DataType_UINT8 = TensorProto_DataType_BOOL).
Proof.
  apply (SetWebnnDataType_only_collision ∅); reflexivity.
Defined.

(** ** GetShape *)

Lemma GetShape_push_back (dims : list Dimension) (shape : list Z) :
  foldl (λ shape dim, shape ++ [dim_value dim]) shape dims
  = shape ++ (dim_value <$> dims).
Proof.
  revert shape. induction dims as [|dim dims IH]; intros shape; simpl.
  - by rewrite app_nil_r.
  - by rewrite IH, <- (assoc_L (++)).
Qed.

Lemma forallb_has_dim_value (dims : list Dimension) :
  forallb has_dim_value dims = true → dim_of_value <$> (dim_value <$> dims) = dims.
Proof.
  induction dims as [|dim dims IH]; [done|]. cbn [forallb].
  intros [Hdim Hdims]%andb_true_iff. rewrite !fmap_cons, IH by done.
  by destruct dim.
Qed.

(** X10.  For an input with a name that [IsInputSupported] accepts,
    [GetShape] succeeds and appends values from which the declared shape
    is recovered: every dimension of the shape is concrete and equal to
    the value read. *)
Theorem GetShape_of_supported_input (input : NodeArg) (parent_name : string)
    (shape : list Z) :
  NodeArg_Name input ≠ "" →
  IsInputSupported input parent_name = true →
  ∃ values,
    GetShape input shape = (true, shape ++ values)
    ∧ NodeArg_Shape input = Some (dim_of_value <$> values).
Proof.
  unfold IsInputSupported, GetShape. intros Hname.
  rewrite bool_decide_false by done.
  destruct (NodeArg_Shape input) as [dims|]; [|done]. intros Hdims.
  exists (dim_value <$> dims). rewrite GetShape_push_back.
  split; [done|]. by rewrite forallb_has_dim_value.
Qed.

Lemma GetShape_of_supported_input_witness :
  ∃ values,
    GetShape static_input [7%Z] = (true, [7%Z] ++ values)
    ∧ NodeArg_Shape static_input = Some (dim_of_value <$> values).
Proof.
  apply (GetShape_of_supported_input static_input "graph" [7%Z]).
  - discriminate.
  - reflexivity.
Defined.

(** X11.  [GetShape] fails exactly when the argument has no shape, and
    then leaves [shape] as it was.  Otherwise it keeps what [shape] held
    and appends one entry for each dimension, the value of the dimension
    where it has one: it does not clear [shape] first. *)
Theorem GetShape_appends (node_arg : NodeArg) (shape : list Z) :
  (NodeArg_Shape node_arg = None ↔ fst (GetShape node_arg shape) = false)
  ∧ (fst (GetShape node_arg shape) = false → snd (GetShape node_arg shape) = shape)
  ∧ (∀ dims, NodeArg_Shape node_arg = Some dims →
       ∃ values,
         GetShape node_arg shape = (true, shape ++ values)
         ∧ length values = length dims
         ∧ ∀ (i : nat) v, dims !! i = Some (dim_of_value v) → values !! i = Some v).
Proof.
  unfold GetShape. destruct (NodeArg_Shape node_arg) as [dims|]; simpl.
  - split; [done|]. split; [done|]. intros ? [= <-].
    exists (dim_value <$> dims). rewrite GetShape_push_back.
    split; [done|]. split; [by rewrite length_fmap|].
    intros i v Hdim. by rewrite list_lookup_fmap, Hdim.
  - done.
Qed.

Lemma GetShape_appends_witness :
  ∃ values,
    GetShape dynamic_input [7%Z] = (true, [7%Z] ++ values)
    ∧ length values = 2%nat
    ∧ ∀ (i : nat) v,
        [dim_of_param "batch"; dim_of_value 6] !! i = Some (dim_of_value v) →
        values !! i = Some v.
Proof.
  destruct (GetShape_appends dynamic_input [7%Z]) as (_ & _ & Hsome).
  apply (Hsome [dim_of_param "batch"; dim_of_value 6]). reflexivity.
Defined.

(** ** AreInputDataTypesSame *)

Lemma vector_at_nat (v : list Z) (i : nat) : vector_at v (Z.of_nat i) = v !! i.
Proof. unfold vector_at. rewrite bool_decide_true by lia. by rewrite Nat2Z.id. Qed.

Lemma input_types_loop_spec (input_types : list Z) (first : Z) (remaining i : nat) :
  input_types !! 0%nat = Some first →
  (i + remaining = length input_types)%nat →
  ∃ same,
    input_types_loop input_types remaining (Z.of_nat i) = Some same
    ∧ (same = true
       ↔ ∀ (j : nat) other, (i ≤ j)%nat → input_types !! j = Some other → other = first).
Proof.
  intros Hfirst. revert i. induction remaining as [|remaining IH]; intros i Hlen.
  - exists true. split; [done|]. split; [|done]. intros _ j other Hj Hother.
    apply lookup_lt_Some in Hother. lia.
  - cbn [input_types_loop].
    change 0%Z with (Z.of_nat 0). rewrite !vector_at_nat, Hfirst. simpl.
    destruct (lookup_lt_is_Some_2 input_types i) as [other Hother]; [lia|].
    rewrite Hother. simpl. case_bool_decide as Hne.
    + exists false. split; [done|]. split; [done|]. intros Hall.
      destruct Hne. symmetry. by apply (Hall i other).
    + subst other.
      destruct (IH (S i)) as (same & Hrun & Hsame); [lia|].
      exists same. replace (Z.of_nat i + 1)%Z with (Z.of_nat (S i)) by lia.
      split; [done|]. rewrite Hsame. split.
      * intros Hall j other' Hj Hother'.
        destruct (decide (j = i)) as [->|?]; [congruence|]. apply (Hall j); [lia|done].
      * intros Hall j other' Hj. apply Hall. lia.
Qed.

Lemma AreInputDataTypesSame_first (op_type : string) (input_types : list Z) :
  ∃ same,
    AreInputDataTypesSame op_type input_types = Some same
    ∧ (same = true
       ↔ ∀ first x, input_types !! 0%nat = Some first → x ∈ input_types → x = first).
Proof.
  unfold AreInputDataTypesSame, vector_size.
  destruct input_types as [|first rest].
  - exists true. split; [done|]. split; [|done]. by intros _ first x ?.
  - destruct (input_types_loop_spec (first :: rest) first (length rest) 1)
      as (same & Hrun & Hsame); [done|done|].
    exists same. split.
    { rewrite <- Hrun. f_equal. simpl length. lia. }
    rewrite Hsame. split.
    + intros Hall first' x [= <-] [->|(j & Hj)%list_elem_of_lookup]%elem_of_cons;
        [done|]. apply (Hall (S j)); [lia|done].
    + intros Hall [|j] other Hj Hother; [lia|].
      apply (Hall first); [done|]. apply list_elem_of_further.
      apply list_elem_of_lookup. by exists j.
Qed.

(** X12.  [AreInputDataTypesSame] never reads outside the span; it
    returns [true] exactly when any two of the input types are equal, in
    particular for no input and for one input. *)
Theorem AreInputDataTypesSame_all_equal (op_type : string) (input_types : list Z) :
  ∃ same,
    AreInputDataTypesSame op_type input_types = Some same
    ∧ (same = true ↔ ∀ x y, x ∈ input_types → y ∈ input_types → x = y)
    ∧ ((length input_types ≤ 1)%nat → same = true).
Proof.
  destruct (AreInputDataTypesSame_first op_type input_types) as (same & Hrun & Hsame).
  exists same. split; [done|].
  assert (same = true ↔ ∀ x y, x ∈ input_types → y ∈ input_types → x = y) as Hpair.
  { rewrite Hsame. split.
    - intros Hall x y Hx Hy. destruct input_types as [|first rest].
      + by apply elem_of_nil in Hx.
      + by rewrite (Hall first x), (Hall first y).
    - intros Hall first x Hfirst Hx. apply Hall; [done|].
      apply list_elem_of_lookup. by exists 0%nat. }
  split; [done|]. intros Hlen. apply Hpair. intros x y Hx Hy.
  destruct input_types as [|first [|second rest]].
  - by apply elem_of_nil in Hx.
  - apply list_elem_of_singleton in Hx, Hy. congruence.
  - simpl in Hlen. lia.
Qed.

(** X13.  Although [AreInputDataTypesSame] compares with the first type
    only, its answer depends neither on the order of the types nor on
    repetitions nor on [op_type]. *)
Theorem AreInputDataTypesSame_order_irrelevant (op_type op_type' : string)
    (input_types input_types' : list Z) :
  (∀ x, x ∈ input_types ↔ x ∈ input_types') →
  AreInputDataTypesSame op_type input_types
  = AreInputDataTypesSame op_type' input_types'.
Proof.
  intros Hsame.
  destruct (AreInputDataTypesSame_first op_type input_types)
    as (same & -> & Hiff).
  destruct (AreInputDataTypesSame_first op_type' input_types')
    as (same' & -> & Hiff').
  assert (∀ (l l' : list Z),
            (∀ x, x ∈ l ↔ x ∈ l') →
            (∀ first x, l !! 0%nat = Some first → x ∈ l → x = first) →
            ∀ first x, l' !! 0%nat = Some first → x ∈ l' → x = first) as Htransfer.
  { intros l l' Hll' Hall first x Hfirst Hx.
    assert (first ∈ l) as Hf by (apply Hll', list_elem_of_lookup; by exists 0%nat).
    apply Hll' in Hx. destruct l as [|head tail]; [by apply elem_of_nil in Hx|].
    by rewrite (Hall head x), (Hall head first). }
  f_equal. destruct same, same'; try done.
  - symmetry. apply Hiff'. apply (Htransfer input_types); [done|]. by apply Hiff.
  - apply Hiff. apply (Htransfer input_types'); [by intros; symmetry|]. by apply Hiff'.
Qed.

Lemma AreInputDataTypesSame_order_irrelevant_witness :
  AreInputDataTypesSame "Concat" [1%Z; 7%Z; 1%Z]
  = AreInputDataTypesSame "Where" [7%Z; 1%Z].
Proof.
  apply AreInputDataTypesSame_order_irrelevant.
  intros x. rewrite !elem_of_cons, elem_of_nil. tauto.
Defined.
